(** * Adaptive Error Recovery Compiler: mock backend and edit applier

    A shallow embedding of the heuristic detector and fix synthesizer of the
    mock backend ([/compile] and [/fix] handlers, [generateFixes]) and of the
    front end's edit applier ([applyFix] in [App.tsx]), with the properties
    of the specification stated and settled against them.

    JavaScript strings are sequences of UTF-16 code units; regular
    expressions without the [u] flag work on code units.  A code unit is
    modelled as a number of type [N], a string as a list of code units. *)

From Stdlib Require Import List NArith ZArith Bool Lia String Ascii QArith.
From Stdlib Require Import Sorted.
Import ListNotations.

Local Open Scope N_scope.

(** ** Strings *)

Module JS.

Definition char := N.
Definition jsstring := list char.

(** A string literal of the source, read as code units. *)
Definition str (s : string) : jsstring :=
  List.map N_of_ascii (list_ascii_of_string s).

Definition LF : char := 10.
Definition CR : char := 13.

Definition char_eqb (c d : char) : bool := N.eqb c d.

Fixpoint str_eqb (s t : jsstring) : bool :=
  match s, t with
  | [], [] => true
  | c :: s', d :: t' => char_eqb c d && str_eqb s' t'
  | _, _ => false
  end.

(** [WhiteSpace] and [LineTerminator] code points, the class [\s]. *)
Definition is_line_terminator (c : char) : bool :=
  (c =? 10) || (c =? 13) || (c =? 8232) || (c =? 8233).

Definition is_space (c : char) : bool :=
  (c =? 9) || (c =? 10) || (c =? 11) || (c =? 12) || (c =? 13) || (c =? 32)
  || (c =? 160) || (c =? 5760) || ((8192 <=? c) && (c <=? 8202))
  || (c =? 8232) || (c =? 8233) || (c =? 8239) || (c =? 8287)
  || (c =? 12288) || (c =? 65279).

(** The class [.] (no [s] flag): everything but a line terminator. *)
Definition is_dot (c : char) : bool := negb (is_line_terminator c).

(** [[ \t]] and [[^;]]. *)
Definition is_blank (c : char) : bool := (c =? 32) || (c =? 9).
Definition not_semi (c : char) : bool := negb (c =? 59).

(** Canonicalize of a pattern character under the [i] flag without [u]: an
    ASCII letter matches exactly its two ASCII cases (a code unit above 127
    never canonicalizes to an ASCII one), any other ASCII character only
    itself. *)
Definition to_upper (c : char) : char :=
  if (97 <=? c) && (c <=? 122) then c - 32 else c.

Definition char_eqb_i (p c : char) : bool :=
  (c <? 128) && (to_upper p =? to_upper c).

(** [Array.prototype.join]. *)
Fixpoint join (sep : jsstring) (ls : list jsstring) : jsstring :=
  match ls with
  | [] => []
  | [l] => l
  | l :: ls' => l ++ sep ++ join sep ls'
  end.

(** [s.split(/\r?\n/)]: every [\n], together with a [\r] right before it, is
    a separator; the pieces between separators are the lines.  The empty
    string gives one empty line. *)
Fixpoint split_lines (s : jsstring) : list jsstring :=
  match s with
  | [] => [[]]
  | c :: s' =>
      if c =? LF then [] :: split_lines s'
      else if (c =? CR) && (match s' with d :: _ => d =? LF | [] => false end)
      then split_lines s'
      else match split_lines s' with
           | l :: ls => (c :: l) :: ls
           | [] => [[c]]
           end
  end.

(** [(s.match(/c/g) || []).length] for a one-character pattern. *)
Definition count_char (c : char) (s : jsstring) : nat :=
  List.length (List.filter (char_eqb c) s).

End JS.

(** ** Regular expressions

    The matchers follow the continuation semantics of the language
    definition: a matcher takes the continuation that matches the rest of
    the pattern, and a position in the input.  A position is the input read
    so far (in reverse) and the input that remains.  Alternatives are tried
    in the pattern's order, so the first success is the match the engine
    reports. *)

Module Regex.
Import JS.

Definition result := (jsstring * jsstring)%type.
Definition cont := jsstring -> jsstring -> option result.
Definition matcher := cont -> cont.

Definition accept : cont := fun b a => Some (b, a).

(** One character of a class. *)
Definition cls (p : char -> bool) : matcher := fun k b a =>
  match a with
  | c :: a' => if p c then k (c :: b) a' else None
  | [] => None
  end.

Definition chr (c : char) : matcher := cls (char_eqb c).

(** A literal, and a literal under the [i] flag. *)
Fixpoint lit (s : jsstring) : matcher := fun k =>
  match s with
  | [] => k
  | c :: s' => chr c (lit s' k)
  end.

Fixpoint lit_i (s : jsstring) : matcher := fun k =>
  match s with
  | [] => k
  | c :: s' => cls (char_eqb_i c) (lit_i s' k)
  end.

(** Greedy [p*] over a character class: as many characters as possible,
    giving one back at a time when the rest fails. *)
Fixpoint star (p : char -> bool) (k : cont) (b a : jsstring) {struct a}
  : option result :=
  match a with
  | c :: a' =>
      if p c then
        match star p k (c :: b) a' with
        | Some r => Some r
        | None => k b a
        end
      else k b a
  | [] => k b a
  end.

(** Greedy [p?] for a character class. *)
Definition opt (p : char -> bool) : matcher := fun k b a =>
  match cls p k b a with
  | Some r => Some r
  | None => k b a
  end.

(** [r1|r2]. *)
Definition alt (m1 m2 : matcher) : matcher := fun k b a =>
  match m1 k b a with
  | Some r => Some r
  | None => m2 k b a
  end.

Definition seq (m1 m2 : matcher) : matcher := fun k => m1 (m2 k).

(** [^] and [$] under the [m] flag, and [$] without it. *)
Definition bol_m : matcher := fun k b a =>
  match b with
  | [] => k b a
  | c :: _ => if is_line_terminator c then k b a else None
  end.

Definition eol_m : matcher := fun k b a =>
  match a with
  | [] => k b a
  | c :: _ => if is_line_terminator c then k b a else None
  end.

Definition eoi : matcher := fun k b a =>
  match a with
  | [] => k b a
  | _ :: _ => None
  end.

(** The search of [exec] without [g] or [y]: the first start position, from
    the left, at which the pattern matches.  The result is the position
    where the match starts and the position where it ends. *)
Fixpoint exec_from (m : matcher) (b a : jsstring) {struct a}
  : option (jsstring * result) :=
  match m accept b a with
  | Some r => Some (b, r)
  | None =>
      match a with
      | c :: a' => exec_from m (c :: b) a'
      | [] => None
      end
  end.

Definition exec (m : matcher) (s : jsstring) := exec_from m [] s.

(** [re.test(s)]. *)
Definition test (m : matcher) (s : jsstring) : bool :=
  match exec m s with Some _ => true | None => false end.

(** The matched text, [s.match(re)[0]]. *)
Definition matched (r : jsstring * result) : jsstring :=
  let '(b0, (b1, _)) := r in
  List.rev (List.firstn (List.length b1 - List.length b0) b1).

Definition match_ (m : matcher) (s : jsstring) : option jsstring :=
  option_map matched (exec m s).

(** [s.replace(re, t)] for a pattern without [g] and a replacement text
    without [$]: the first match is replaced. *)
Definition replace (m : matcher) (t s : jsstring) : jsstring :=
  match exec m s with
  | Some (b0, (_, a1)) => List.rev b0 ++ t ++ a1
  | None => s
  end.

(** [/\r?\n/], the separator of [split_lines]. *)
Definition re_newline : matcher := seq (opt (char_eqb CR)) (chr LF).

End Regex.

(** ** The mock backend *)

Module Mock.
Import JS Regex.

(** An entry of [errors]: [{ type, message, line? }]. *)
Record Diagnostic := mkDiagnostic {
  err_type : jsstring;
  err_message : jsstring;
  err_line : option Z
}.

(** A token of the success response: [{ type, value, line }]. *)
Record Token := mkToken {
  tok_type : jsstring;
  tok_value : jsstring;
  tok_line : Z
}.

(** The [edit] of a fix: [{ type, line, content?, original?, replacement? }].
    A field that is absent, or [undefined], is [None]. *)
Record Edit := mkEdit {
  edit_type : jsstring;
  edit_line : option Z;
  edit_content : option jsstring;
  edit_original : option jsstring;
  edit_replacement : option jsstring
}.

(** An entry of [fixes]: [{ description, confidence, edit }].  The
    confidence is a decimal constant of the source, kept as a fraction. *)
Record Fix := mkFix {
  fix_description : jsstring;
  fix_confidence : Q;
  fix_edit : Edit
}.

(** The body of the [/compile] response and of the [/fix] response. *)
Record CompileResponse := mkCompileResponse {
  status : jsstring;
  message : jsstring;
  tokens : list Token;
  errors : list Diagnostic;
  fixes : list Fix
}.

Record FixResponse := mkFixResponse {
  fix_fixes : list Fix
}.

Definition push {A} (xs : list A) (x : A) : list A := xs ++ [x].

(** The patterns of the source. *)

(** [/printf\s*\(/] *)
Definition re_printf : matcher :=
  seq (lit (str "printf")) (seq (star is_space) (chr 40)).

(** [/#\s*include\s*<stdio.h>/] *)
Definition re_stdio_include : matcher :=
  seq (chr 35) (seq (star is_space) (seq (lit (str "include"))
    (seq (star is_space) (seq (lit (str "<stdio"))
      (seq (cls is_dot) (lit (str "h>"))))))).

(** [/(^.*printf\s*\([^;]*\)[ \t]*$)/m] *)
Definition re_printf_line : matcher :=
  seq bol_m (seq (star is_dot) (seq (lit (str "printf"))
    (seq (star is_space) (seq (chr 40) (seq (star not_semi)
      (seq (chr 41) (seq (star is_blank) eol_m))))))).

(** [/;\s*$/] *)
Definition re_semi_end : matcher :=
  seq (chr 59) (seq (star is_space) eoi).

(** [/;;/] *)
Definition re_semi_semi : matcher := lit (str ";;").

(** [/printf\s*\([^;]*\)\s*$/] *)
Definition re_printf_open : matcher :=
  seq (lit (str "printf")) (seq (star is_space) (seq (chr 40)
    (seq (star not_semi) (seq (chr 41) (seq (star is_space) eoi))))).

(** [/\}/] *)
Definition re_close_brace : matcher := chr 125.

(** [/stdio/i], [/semicolon/i], [/brace/i], [/extra semicolon|duplicate/i] *)
Definition re_msg_stdio : matcher := lit_i (str "stdio").
Definition re_msg_semicolon : matcher := lit_i (str "semicolon").
Definition re_msg_brace : matcher := lit_i (str "brace").
Definition re_msg_extra : matcher :=
  alt (lit_i (str "extra semicolon")) (lit_i (str "duplicate")).

(** [(code.match(/\{/g) || []).length] and [(code.match(/\}/g) || []).length] *)
Definition count_open (code : jsstring) : nat := count_char 123 code.
Definition count_close (code : jsstring) : nat := count_char 125 code.

(** The diagnostics the handlers push. *)
Definition err_stdio : Diagnostic :=
  mkDiagnostic (str "ReferenceError")
    (str "printf may be undeclared (missing #include <stdio.h>)") None.

Definition err_missing_semicolon : Diagnostic :=
  mkDiagnostic (str "SyntaxError") (str "Missing semicolon after statement")
    None.

Definition err_extra_semicolon (i : nat) : Diagnostic :=
  mkDiagnostic (str "SyntaxWarning") (str "Extra semicolon detected")
    (Some (Z.of_nat i + 1)%Z).

Definition err_braces : Diagnostic :=
  mkDiagnostic (str "SyntaxError") (str "Unmatched braces") None.

(** [for (let i = 0; i < lines.length; i++) if (/;;/.test(lines[i]))
    errors.push({ ..., line: i + 1 })], from index [i] on. *)
Fixpoint extra_semicolon_loop (lines : list jsstring) (i : nat)
    (errors : list Diagnostic) : list Diagnostic :=
  match lines with
  | [] => errors
  | l :: ls =>
      extra_semicolon_loop ls (S i)
        (if test re_semi_semi l then push errors (err_extra_semicolon i)
         else errors)
  end.

(** A forward loop that stops at the first line satisfying [p], and a
    backward one: the index and the line found. *)
Fixpoint first_line (p : jsstring -> bool) (lines : list jsstring) (i : nat)
  : option (nat * jsstring) :=
  match lines with
  | [] => None
  | l :: ls => if p l then Some (i, l) else first_line p ls (S i)
  end.

Fixpoint last_line (p : jsstring -> bool) (lines : list jsstring) (i : nat)
  : option (nat * jsstring) :=
  match lines with
  | [] => None
  | l :: ls =>
      match last_line p ls (S i) with
      | Some r => Some r
      | None => if p l then Some (i, l) else None
      end
  end.

Definition some (p : Diagnostic -> bool) (errors : list Diagnostic) : bool :=
  List.existsb p errors.

(** The fixes [generateFixes] pushes. *)
Definition fix_stdio : Fix :=
  mkFix (str "Add #include <stdio.h> at the top to declare printf") (9 # 10)
    (mkEdit (str "insert") (Some 1%Z)
       (Some (str "#include <stdio.h>" ++ [LF])) None None).

Definition fix_missing_semicolon (i : nat) (original : jsstring) : Fix :=
  mkFix (str "Add missing semicolon to end of statement") (95 # 100)
    (mkEdit (str "replace") (Some (Z.of_nat i + 1)%Z) None
       (Some original) (Some (original ++ str ";"))).

Definition fix_add_brace (lines : list jsstring) : Fix :=
  mkFix (str "Add missing closing brace at end of file") (85 # 100)
    (mkEdit (str "insert") (Some (Z.of_nat (List.length lines) + 1)%Z)
       (Some (LF :: str "}")) None None).

Definition fix_remove_brace (i : nat) (original : jsstring) : Fix :=
  mkFix (str "Remove an extra closing brace") (6 # 10)
    (mkEdit (str "replace") (Some (Z.of_nat i + 1)%Z) None
       (Some original) (Some [])).

Definition fix_extra_semicolon (i : nat) (original : jsstring) : Fix :=
  mkFix (str "Remove extra semicolon") (9 # 10)
    (mkEdit (str "replace") (Some (Z.of_nat i + 1)%Z) None
       (Some original) (Some (replace re_semi_semi (str ";") original))).

(** [generateFixes(code, errors)] *)
Definition generateFixes (code : jsstring) (errors : list Diagnostic)
  : list Fix :=
  let fixes : list Fix := [] in
  let lines := split_lines code in
  (* missing stdio include *)
  let fixes :=
    if some (fun e => test re_msg_stdio (err_message e)) errors
    then push fixes fix_stdio else fixes in
  (* missing semicolon *)
  let fixes :=
    if some (fun e => test re_msg_semicolon (err_message e)) errors then
      match first_line (test re_printf_open) lines 0 with
      | Some (i, original) => push fixes (fix_missing_semicolon i original)
      | None => fixes
      end
    else fixes in
  (* unmatched braces *)
  let fixes :=
    if some (fun e => test re_msg_brace (err_message e)) errors then
      let open := count_open code in
      let close := count_close code in
      if (close <? open)%nat then push fixes (fix_add_brace lines)
      else if (open <? close)%nat then
        match last_line (test re_close_brace) lines 0 with
        | Some (i, original) => push fixes (fix_remove_brace i original)
        | None => fixes
        end
      else fixes
    else fixes in
  (* extra semicolon *)
  let fixes :=
    if some (fun e => test re_msg_extra (err_message e)) errors then
      match first_line (test re_semi_semi) lines 0 with
      | Some (i, original) => push fixes (fix_extra_semicolon i original)
      | None => fixes
      end
    else fixes in
  fixes.

(** The tokens of the success response. *)
Definition success_tokens : list Token :=
  [ mkToken (str "keyword") (str "int") 1;
    mkToken (str "identifier") (str "main") 1 ].

(** The [/compile] handler, from the request's [code] to the body of its
    response. *)
Definition compile_handler (code : jsstring) : CompileResponse :=
  let errors : list Diagnostic := [] in
  let lines := split_lines code in
  let hasPrintf := test re_printf code in
  let hasStdio := test re_stdio_include code in
  let errors :=
    if hasPrintf && negb hasStdio then push errors err_stdio else errors in
  let printfLineMatch := match_ re_printf_line code in
  let errors :=
    match printfLineMatch with
    | Some lineText =>
        if negb (test re_semi_end lineText)
        then push errors err_missing_semicolon else errors
    | None => errors
    end in
  let errors := extra_semicolon_loop lines 0 errors in
  let openBraces := count_open code in
  let closeBraces := count_close code in
  let errors :=
    if negb (openBraces =? closeBraces)%nat then push errors err_braces
    else errors in
  if (List.length errors =? 0)%nat then
    mkCompileResponse (str "success") (str "Mock compilation succeeded")
      success_tokens [] []
  else
    let fixes := generateFixes code errors in
    mkCompileResponse (str "error") (str "Mock compilation failed")
      [] errors fixes.

(** The [/fix] handler. *)
Definition fix_handler (code : jsstring) : FixResponse :=
  let errors : list Diagnostic := [] in
  let hasPrintf := test re_printf code in
  let hasStdio := test re_stdio_include code in
  let errors :=
    if hasPrintf && negb hasStdio then push errors err_stdio else errors in
  let printfLineMatch := match_ re_printf_line code in
  let errors :=
    match printfLineMatch with
    | Some lineText =>
        if negb (test re_semi_end lineText)
        then push errors err_missing_semicolon else errors
    | None => errors
    end in
  let lines := split_lines code in
  let errors := extra_semicolon_loop lines 0 errors in
  let openBraces := count_open code in
  let closeBraces := count_close code in
  let errors :=
    if negb (openBraces =? closeBraces)%nat then push errors err_braces
    else errors in
  let fixes := generateFixes code errors in
  mkFixResponse fixes.

(** The two contracts of the specification: [analyze] is the diagnostics of
    the [/compile] response, [suggest_fixes] is [generateFixes]. *)
Definition analyze (code : jsstring) : list Diagnostic :=
  errors (compile_handler code).
Definition suggest_fixes := generateFixes.

End Mock.

(** ** The edit applier of the front end *)

Module App.
Import JS Regex Mock.

(** The state of the component that [applyFix] reads and sets. *)
Record AppState := mkAppState {
  st_code : jsstring;
  st_result : option CompileResponse;
  st_fixes : option (list Fix)
}.

(** [lines.splice(i, 0, ...items)] *)
Definition splice {A} (lines : list A) (i : nat) (items : list A) : list A :=
  List.firstn i lines ++ items ++ List.skipn i lines.

(** [lines[i] = v]: an index past the end extends the array; the slots in
    between are holes, which [join] prints as empty strings. *)
Fixpoint array_set (lines : list jsstring) (i : nat) (v : jsstring)
  : list jsstring :=
  match lines, i with
  | [], O => [v]
  | [], S i' => [] :: array_set [] i' v
  | _ :: ls, O => v :: ls
  | l :: ls, S i' => l :: array_set ls i' v
  end.

(** [edit.line || 1], [edit.content || ''] *)
Definition line_or_1 (line : option Z) : Z :=
  match line with
  | Some z => if (z =? 0)%Z then 1%Z else z
  | None => 1%Z
  end.

Definition content_or_empty (content : option jsstring) : jsstring :=
  match content with
  | Some c => c
  | None => []
  end.

(** [Math.max(0, Math.min(lines.length, (edit.line || 1) - 1))] *)
Definition lineIndex (lines : list jsstring) (edit : Edit) : nat :=
  Z.to_nat (Z.max 0 (Z.min (Z.of_nat (List.length lines))
                           (line_or_1 (edit_line edit) - 1))).

(** The lines of [applyFix] after the edit. *)
Definition edited_lines (code : jsstring) (edit : Edit) : list jsstring :=
  let lines := split_lines code in
  let lineIndex := lineIndex lines edit in
  if str_eqb (edit_type edit) (str "insert") then
    splice lines lineIndex (split_lines (content_or_empty (edit_content edit)))
  else if str_eqb (edit_type edit) (str "replace") then
    match edit_line edit with
    | Some _ =>
        array_set lines lineIndex
          (match edit_replacement edit with
           | Some r => r
           | None => content_or_empty (edit_content edit)
           end)
    | None => lines
    end
  else lines.

(** The new value of [code]. *)
Definition newCode (code : jsstring) (edit : Edit) : jsstring :=
  join [LF] (edited_lines code edit).

(** [applyFix(fix)] for a fix with an [edit]: the code is set to the edited
    text, the fixes and the result are cleared. *)
Definition applyFix (st : AppState) (fx : Fix) : AppState :=
  mkAppState (newCode (st_code st) (fix_edit fx)) None None.

(** The number of lines of a buffer. *)
Definition line_count (code : jsstring) : nat :=
  List.length (split_lines code).

End App.

(** ** What the matchers match

    The words a matcher can read are given by a predicate [D b w a]: with
    [b] read so far (in reverse) and [w ++ a] ahead, the matcher can read
    [w].  A matcher is sound for [D] when every result it returns comes
    from reading such a word and handing over to the continuation, and
    complete when every such word on which the continuation succeeds makes
    it succeed. *)

Module Words.
Import JS Regex.

Definition words := jsstring -> jsstring -> jsstring -> Prop.

Definition sound (m : matcher) (D : words) : Prop :=
  forall k b a r, m k b a = Some r ->
    exists w a', a = w ++ a' /\ D b w a' /\ k (List.rev w ++ b) a' = Some r.

Definition complete (m : matcher) (D : words) : Prop :=
  forall k b w a', D b w a' -> k (List.rev w ++ b) a' <> None ->
    m k b (w ++ a') <> None.

Definition at_bol (b : jsstring) : Prop :=
  match b with
  | [] => True
  | c :: _ => is_line_terminator c = true
  end.

Definition at_eol (a : jsstring) : Prop :=
  match a with
  | [] => True
  | c :: _ => is_line_terminator c = true
  end.

Definition D_cls (p : char -> bool) : words :=
  fun _ w _ => exists c, w = [c] /\ p c = true.
Definition D_lit (s : jsstring) : words := fun _ w _ => w = s.
Definition D_lit_i (s : jsstring) : words :=
  fun _ w _ => Forall2 (fun p c => char_eqb_i p c = true) s w.
Definition D_star (p : char -> bool) : words :=
  fun _ w _ => forallb p w = true.
Definition D_seq (D1 D2 : words) : words :=
  fun b w a => exists w1 w2,
    w = w1 ++ w2 /\ D1 b w1 (w2 ++ a) /\ D2 (List.rev w1 ++ b) w2 a.
Definition D_alt (D1 D2 : words) : words :=
  fun b w a => D1 b w a \/ D2 b w a.
Definition D_bol_m : words := fun b w _ => w = [] /\ at_bol b.
Definition D_eol_m : words := fun _ w a => w = [] /\ at_eol a.
Definition D_eoi : words := fun _ w a => w = [] /\ a = [].

(** [test] says whether the pattern has a match somewhere in the input. *)
Definition found (D : words) (s : jsstring) : Prop :=
  exists u w a, s = u ++ w ++ a /\ D (List.rev u) w a.

End Words.

(** ** The vocabulary of the specification *)

Module Spec.
Import JS Regex Mock App Words.

(** The occurrences of a character in all the lines together. *)
Definition count_in_lines (c : char) (ls : list jsstring) : nat :=
  list_sum (List.map (count_char c) ls).

(** The words of the patterns of the detector. *)
Definition D_printf_line : words :=
  D_seq D_bol_m (D_seq (D_star is_dot) (D_seq (D_lit (str "printf"))
    (D_seq (D_star is_space) (D_seq (D_lit [40]) (D_seq (D_star not_semi)
      (D_seq (D_lit [41]) (D_seq (D_star is_blank) D_eol_m))))))).

Definition D_semi_end : words :=
  D_seq (D_lit [59]) (D_seq (D_star is_space) D_eoi).

(** A buffer has an unterminated [printf] when, at the start of a line and
    after any text of that line, it reads [printf], white space, an opening
    parenthesis, text without a semicolon (which may run over several
    lines), a closing parenthesis and then only blanks up to the end of a
    line. *)
Definition unterminated_printf (code : jsstring) : Prop :=
  exists pre l ws body blanks post,
    code = pre ++ l ++ str "printf" ++ ws ++ [40] ++ body ++ [41]
               ++ blanks ++ post /\
    at_bol (List.rev pre) /\ forallb is_dot l = true /\
    forallb is_space ws = true /\ forallb not_semi body = true /\
    forallb is_blank blanks = true /\ at_eol post.

(** A line has two semicolons in a row. *)
Definition adjacent_semicolons (l : jsstring) : Prop :=
  exists u v, l = u ++ str ";;" ++ v.

(** *** The diagnostics of one run

    Both handlers build the same list: the result of each of the four
    checks, in the order of the checks. *)

Definition stdio_errors (code : jsstring) : list Diagnostic :=
  if test re_printf code && negb (test re_stdio_include code)
  then [err_stdio] else [].

Definition semicolon_errors (code : jsstring) : list Diagnostic :=
  if test re_printf_line code then [err_missing_semicolon] else [].

Fixpoint extra_errors (lines : list jsstring) (i : nat) : list Diagnostic :=
  match lines with
  | [] => []
  | l :: ls =>
      (if test re_semi_semi l then [err_extra_semicolon i] else [])
      ++ extra_errors ls (S i)
  end.

Definition brace_errors (code : jsstring) : list Diagnostic :=
  if Nat.eqb (count_open code) (count_close code) then []
  else [err_braces].

Definition detected (code : jsstring) : list Diagnostic :=
  stdio_errors code ++ semicolon_errors code
  ++ extra_errors (split_lines code) 0 ++ brace_errors code.

(** *** The fixes of one call

    [generateFixes] has four branches, each adding at most one fix. *)

Definition stdio_fix (errors : list Diagnostic) : list Fix :=
  if some (fun e => test re_msg_stdio (err_message e)) errors
  then [fix_stdio] else [].

Definition semicolon_fix (code : jsstring) (errors : list Diagnostic)
  : list Fix :=
  if some (fun e => test re_msg_semicolon (err_message e)) errors then
    match first_line (test re_printf_open) (split_lines code) 0 with
    | Some (i, original) => [fix_missing_semicolon i original]
    | None => []
    end
  else [].

Definition brace_fix (code : jsstring) (errors : list Diagnostic)
  : list Fix :=
  if some (fun e => test re_msg_brace (err_message e)) errors then
    if (count_close code <? count_open code)%nat
    then [fix_add_brace (split_lines code)]
    else if (count_open code <? count_close code)%nat then
      match last_line (test re_close_brace) (split_lines code) 0 with
      | Some (i, original) => [fix_remove_brace i original]
      | None => []
      end
    else []
  else [].

Definition extra_fix (code : jsstring) (errors : list Diagnostic)
  : list Fix :=
  if some (fun e => test re_msg_extra (err_message e)) errors then
    match first_line (test re_semi_semi) (split_lines code) 0 with
    | Some (i, original) => [fix_extra_semicolon i original]
    | None => []
    end
  else [].

(** What [split_lines] does with the first character of a line's rest
    when it is no separator. *)
Definition prepend (c : char) (ls : list jsstring) : list jsstring :=
  match ls with
  | l :: ls' => (c :: l) :: ls'
  | [] => [[c]]
  end.

(** *** Kinds of diagnostics

    The source has no kind tag: the message tells the kind. *)

Inductive Kind :=
  MissingInclude | MissingSemicolon | ExtraSemicolon | UnmatchedBraces.

Definition kind_message (k : Kind) : jsstring :=
  match k with
  | MissingInclude => err_message err_stdio
  | MissingSemicolon => err_message err_missing_semicolon
  | ExtraSemicolon => err_message (err_extra_semicolon 0)
  | UnmatchedBraces => err_message err_braces
  end.

Definition has_kind (k : Kind) (d : Diagnostic) : bool :=
  str_eqb (err_message d) (kind_message k).

Definition all_of_kind (k : Kind) (ds : list Diagnostic) : Prop :=
  Forall (fun d => err_message d = kind_message k) ds.

Definition kind_eqb (k k' : Kind) : bool :=
  match k, k' with
  | MissingInclude, MissingInclude | MissingSemicolon, MissingSemicolon
  | ExtraSemicolon, ExtraSemicolon | UnmatchedBraces, UnmatchedBraces => true
  | _, _ => false
  end.

(** The lines, counted from 0, that the duplicate-semicolon check reports. *)
Definition offending_lines (lines : list jsstring) : list nat :=
  filter (fun i => test re_semi_semi (nth i lines []))
    (List.seq 0 (List.length lines)).

(** *** Concrete buffers for the detector *)

(** The code unit of the double quote. *)
Definition DQ : char := 34.

(** [int main() {\n  printf("hi");\n] *)
Definition scenario_B : jsstring :=
  str "int main() {" ++ [LF] ++ str "  printf(" ++ [DQ] ++ str "hi" ++ [DQ]
  ++ str ");" ++ [LF].

(** [#include <stdio.h>\nint main(){printf("x");}] *)
Definition scenario_D : jsstring :=
  str "#include <stdio.h>" ++ [LF] ++ str "int main(){printf(" ++ [DQ]
  ++ str "x" ++ [DQ] ++ str ");}".

(** [printf(x)] *)
Definition bare_printf : jsstring := str "printf(x)".

(** The text an edit puts into the buffer: the content of an insert; the
    replacement of a replace, or its content when it has no replacement. *)
Definition edit_text (e : Edit) : jsstring :=
  if str_eqb (edit_type e) (str "insert")
  then content_or_empty (edit_content e)
  else match edit_replacement e with
       | Some r => r
       | None => content_or_empty (edit_content e)
       end.

(** *** Concrete buffers and edits for the applier *)

(** A buffer of one line, [a]; buffers with one and with two braces open. *)
Definition one_line : jsstring := str "a".
Definition one_open : jsstring := str "{".
Definition two_open : jsstring := str "{{".

(** [{ type: 'insert', line: 0, content: 'x' }] *)
Definition insert_x : Edit :=
  mkEdit (str "insert") (Some 0%Z) (Some (str "x")) None None.

(** [{ type: 'replace', line: 2, original: 'a', replacement: 'b' }] *)
Definition replace_past_end : Edit :=
  mkEdit (str "replace") (Some 2%Z) None (Some (str "a")) (Some (str "b")).

(** The code unit of a no-break space: white space for [\s], and neither
    a blank nor a line terminator. *)
Definition NBSP : char := 160.

(** [#include <stdio.h>\n;;\nprintf(x)] followed by a no-break space *)
Definition nbsp_buffer : jsstring :=
  str "#include <stdio.h>" ++ [LF] ++ str ";;" ++ [LF] ++ str "printf(x)"
  ++ [NBSP].

(** *** Characters and lines, by the words of the specification

    These say what the count of a character and what a line of the buffer
    are without the functions of the handlers: the checks are compared with
    them. *)

(** The number of times a character occurs in a text. *)
Definition occurrences (c : char) (s : jsstring) : nat :=
  count_occ N.eq_dec s c.

(** Line [i], counted from 0, of a buffer is [l]: the buffer has [i] line
    feeds before [l], which starts the buffer or follows a line feed; [l]
    has no line feed; and [l] runs up to the end of the buffer, or up to a
    line feed (then [l] does not end in a carriage return, which would
    belong to the line break), or up to a carriage return and a line
    feed. *)
Definition line_at (code : jsstring) (i : nat) (l : jsstring) : Prop :=
  exists pre post,
    code = pre ++ l ++ post /\
    occurrences LF pre = i /\
    (pre = [] \/ exists pre', pre = pre' ++ [LF]) /\
    occurrences LF l = 0%nat /\
    (post = [] \/
     (exists post', post = LF :: post') /\ (forall u, l <> u ++ [CR]) \/
     exists post', post = CR :: LF :: post').

End Spec.

(** ** The vocabulary of the repair loop *)

Module Loop.
Import JS Regex Mock App Words Spec.

(** The words of [/printf\s*\(/], of [/#\s*include\s*<stdio.h>/] and of
    [/printf\s*\([^;]*\)\s*$/]. *)
Definition D_printf : words :=
  D_seq (D_lit (str "printf")) (D_seq (D_star is_space) (D_lit [40])).

Definition D_stdio_include : words :=
  D_seq (D_lit [35]) (D_seq (D_star is_space) (D_seq (D_lit (str "include"))
    (D_seq (D_star is_space) (D_seq (D_lit (str "<stdio"))
      (D_seq (D_cls is_dot) (D_lit (str "h>"))))))).

Definition D_printf_open : words :=
  D_seq (D_lit (str "printf")) (D_seq (D_star is_space) (D_seq (D_lit [40])
    (D_seq (D_star not_semi) (D_seq (D_lit [41])
      (D_seq (D_star is_space) D_eoi))))).

(** The buffer has [printf], white space and an opening parenthesis. *)
Definition printf_call (code : jsstring) : Prop :=
  exists u ws v,
    code = u ++ str "printf" ++ ws ++ [40] ++ v /\
    forallb is_space ws = true.

(** The buffer has [#], white space, [include], white space, [<stdio], one
    character that ends no line, and [h>]. *)
Definition stdio_include (code : jsstring) : Prop :=
  exists u ws1 ws2 c v,
    code = u ++ [35] ++ ws1 ++ str "include" ++ ws2 ++ str "<stdio" ++ [c]
             ++ str "h>" ++ v /\
    forallb is_space ws1 = true /\ forallb is_space ws2 = true /\
    is_dot c = true.

(** The line ends in a [printf] call with no semicolon in its parentheses
    and only white space after them. *)
Definition open_printf (l : jsstring) : Prop :=
  exists u ws body sp,
    l = u ++ str "printf" ++ ws ++ [40] ++ body ++ [41] ++ sp /\
    forallb is_space ws = true /\ forallb not_semi body = true /\
    forallb is_space sp = true.

(** What re-joining the lines of a buffer does to it: every carriage return
    right before a line feed goes away. *)
Fixpoint normalize_newlines (s : jsstring) : jsstring :=
  match s with
  | [] => []
  | c :: s' =>
      if (c =? CR) && (match s' with d :: _ => d =? LF | [] => false end)
      then normalize_newlines s'
      else c :: normalize_newlines s'
  end.

(** The buffer has no carriage return right before a line feed; the line
    does not end in a carriage return. *)
Definition crlf_free (s : jsstring) : Prop :=
  forall u v, s <> u ++ [CR; LF] ++ v.

Definition no_CR_at_end (l : jsstring) : Prop :=
  forall u, l <> u ++ [CR].

(** One turn of the repair loop on the braces: the buffer after the fix
    that adds a closing brace. *)
Definition add_brace_step (code : jsstring) : jsstring :=
  newCode code (fix_edit (fix_add_brace (split_lines code))).

(** The fix that answers a kind of diagnostic. *)
Definition fix_for (k : Kind) (code : jsstring) (f : Fix) : Prop :=
  match k with
  | MissingInclude => f = fix_stdio
  | MissingSemicolon => exists i l, f = fix_missing_semicolon i l
  | ExtraSemicolon => exists i l, f = fix_extra_semicolon i l
  | UnmatchedBraces =>
      f = fix_add_brace (split_lines code) \/
      exists i l, f = fix_remove_brace i l
  end.

(** [int x;;] and, on a second line, [printf(x)] *)
Definition two_defects : jsstring :=
  str "int x;;" ++ [LF] ++ str "printf(x)".

(** Edits and a buffer to try the applier on. *)
Definition insert_far : Edit :=
  mkEdit (str "insert") (Some 7%Z) (Some (str "x")) None None.

Definition replace_far : Edit :=
  mkEdit (str "replace") (Some 9%Z) None None (Some (str "b")).

Definition replace_second : Edit :=
  mkEdit (str "replace") (Some 2%Z) None None (Some (str "c")).

Definition two_lines : jsstring := str "a" ++ [LF] ++ str "b".

(** [{ type: 'delete', line: 1 }], a type the applier does not know, and
    [{ type: 'insert', line: 2, content: '{}' }]. *)
Definition delete_first : Edit :=
  mkEdit (str "delete") (Some 1%Z) None None None.

Definition insert_braces : Edit :=
  mkEdit (str "insert") (Some 2%Z) (Some (str "{}")) None None.

End Loop.

(** * Properties *)

(** ** Lines and counts *)

Module JSFacts.
Import JS Regex Spec.

Lemma char_eqb_eq (c d : char) : char_eqb c d = true <-> c = d.
Proof. unfold char_eqb. apply N.eqb_eq. Qed.

Lemma str_eqb_eq (s t : jsstring) : str_eqb s t = true <-> s = t.
Proof.
  revert t. induction s as [|c s IH]; intros [|d t]; simpl; split;
    try congruence; try reflexivity.
  - intros H. apply andb_true_iff in H. destruct H as [H1 H2].
    apply char_eqb_eq in H1. apply IH in H2. congruence.
  - intros H. injection H as -> ->. apply andb_true_iff. split.
    + now apply char_eqb_eq.
    + now apply IH.
Qed.

Lemma count_char_nil c : count_char c [] = 0%nat.
Proof. reflexivity. Qed.

Lemma count_char_cons c d s :
  count_char c (d :: s) =
  ((if char_eqb c d then 1 else 0) + count_char c s)%nat.
Proof. unfold count_char. simpl. now destruct (char_eqb c d). Qed.

Lemma count_char_app c s t :
  count_char c (s ++ t) = (count_char c s + count_char c t)%nat.
Proof.
  unfold count_char. now rewrite filter_app, length_app.
Qed.

Lemma count_in_lines_app c ls ms :
  count_in_lines c (ls ++ ms) =
  (count_in_lines c ls + count_in_lines c ms)%nat.
Proof. unfold count_in_lines. now rewrite map_app, list_sum_app. Qed.

Lemma join_cons sep l ls :
  ls <> [] -> join sep (l :: ls) = l ++ sep ++ join sep ls.
Proof. destruct ls; [congruence | reflexivity]. Qed.

Lemma count_char_join c sep ls :
  count_char c (join sep ls) =
  (count_in_lines c ls + (List.length ls - 1) * count_char c sep)%nat.
Proof.
  induction ls as [|l ls IH]; [reflexivity|].
  destruct ls as [|l' ls].
  - unfold count_in_lines. simpl. lia.
  - rewrite join_cons by discriminate.
    rewrite !count_char_app, IH. unfold count_in_lines. simpl. lia.
Qed.

Lemma split_lines_not_nil s : split_lines s <> [].
Proof.
  induction s as [|c s IH]; simpl; [discriminate|].
  destruct (c =? LF); [discriminate|].
  destruct ((c =? CR) && _); [assumption|].
  destruct (split_lines s); discriminate.
Qed.

(** A buffer has one line more than it has line feeds. *)
Lemma length_split_lines s :
  List.length (split_lines s) = S (count_char LF s).
Proof.
  induction s as [|c s IH]; [reflexivity|].
  rewrite count_char_cons. cbn [split_lines]. unfold char_eqb.
  rewrite (N.eqb_sym LF c).
  destruct (c =? LF) eqn:E; [simpl; now rewrite IH|].
  destruct ((c =? CR) && _); [assumption|].
  destruct (split_lines s); simpl in *; lia.
Qed.

(** Splitting loses the separators and nothing else. *)
Lemma count_in_split_lines c s :
  c <> LF -> c <> CR ->
  count_in_lines c (split_lines s) = count_char c s.
Proof.
  intros Hlf Hcr. induction s as [|d s IH]; [reflexivity|].
  rewrite count_char_cons. simpl. unfold char_eqb.
  destruct (d =? LF) eqn:E1.
  - apply N.eqb_eq in E1. subst d.
    destruct (N.eqb_spec c LF); [contradiction|].
    unfold count_in_lines in *. simpl. now rewrite IH.
  - destruct ((d =? CR) && _) eqn:E2.
    + apply andb_true_iff in E2. destruct E2 as [E2 _].
      apply N.eqb_eq in E2. subst d.
      destruct (N.eqb_spec c CR); [contradiction|]. now rewrite IH.
    + pose proof (split_lines_not_nil s) as Hnn.
      destruct (split_lines s) as [|l ls]; [contradiction|].
      unfold count_in_lines in *. simpl in *.
      rewrite count_char_cons. unfold char_eqb. lia.
Qed.

(** [split_lines] splits at the matches of [/\r?\n/]: where the pattern
    matches, a line ends and the next one starts after the match; where it
    does not, the character belongs to the line. *)
Lemma split_lines_separator (b s : jsstring) :
  match re_newline accept b s with
  | Some (_, rest) => split_lines s = [] :: split_lines rest
  | None =>
      match s with
      | [] => split_lines s = [[]]
      | c :: s' => split_lines s = prepend c (split_lines s')
      end
  end.
Proof.
  destruct s as [|c s]; [reflexivity|].
  unfold re_newline, seq, opt, chr, cls, char_eqb. cbn [split_lines].
  rewrite (N.eqb_sym CR c), (N.eqb_sym LF c).
  destruct (c =? CR) eqn:Ecr.
  - apply N.eqb_eq in Ecr. subst c. change (CR =? LF) with false. cbv iota.
    destruct s as [|d s]; [reflexivity|].
    rewrite (N.eqb_sym LF d). cbn [split_lines andb].
    destruct (d =? LF) eqn:Elf; [|reflexivity].
    apply N.eqb_eq in Elf. now subst d.
  - destruct (c =? LF); reflexivity.
Qed.

Lemma split_lines_no_LF s :
  Forall (fun l => count_char LF l = 0%nat) (split_lines s).
Proof.
  induction s as [|c s IH]; cbn [split_lines].
  - now constructor.
  - destruct (c =? LF) eqn:E1; [now constructor|].
    destruct ((c =? CR) && _); [assumption|].
    pose proof (split_lines_not_nil s) as Hnn.
    destruct (split_lines s) as [|l ls]; [contradiction|].
    inversion IH as [|? ? Hl Hls]; subst. constructor; [|assumption].
    rewrite count_char_cons. unfold char_eqb.
    now rewrite (N.eqb_sym LF c), E1.
Qed.

Lemma count_LF_split_lines s : count_in_lines LF (split_lines s) = 0%nat.
Proof.
  unfold count_in_lines.
  induction (split_lines_no_LF s) as [|l ls H _ IH]; [reflexivity|].
  simpl. now rewrite H.
Qed.

(** Joining lines back gives as many lines as were joined, and one more
    for each line feed inside a line. *)
Lemma line_count_join ls :
  ls <> [] ->
  List.length (split_lines (join [LF] ls)) =
  (List.length ls + count_in_lines LF ls)%nat.
Proof.
  intros Hnn. rewrite length_split_lines, count_char_join.
  destruct ls; [contradiction|]. simpl List.length.
  change (count_char LF [LF]) with 1%nat. lia.
Qed.

End JSFacts.

(** ** The lines of a buffer *)

Module LinesFacts.
Import JS Regex Spec Loop JSFacts.

Lemma count_char_occurrences c s : count_char c s = occurrences c s.
Proof.
  unfold occurrences. induction s as [|d s IH]; [reflexivity|].
  rewrite count_char_cons, IH. simpl. unfold char_eqb.
  destruct (N.eq_dec d c) as [->|Hn].
  - now rewrite N.eqb_refl.
  - replace (c =? d) with false; [reflexivity|].
    symmetry. apply N.eqb_neq. congruence.
Qed.

Lemma occurrences_cons c d s :
  occurrences c (d :: s) =
  ((if N.eqb c d then 1 else 0) + occurrences c s)%nat.
Proof. rewrite <- !count_char_occurrences. apply count_char_cons. Qed.

Lemma occurrences_app c s t :
  occurrences c (s ++ t) = (occurrences c s + occurrences c t)%nat.
Proof. rewrite <- !count_char_occurrences. apply count_char_app. Qed.

Lemma nth_error_prepend c (ls : list jsstring) n :
  ls <> [] -> nth_error (prepend c ls) (S n) = nth_error ls (S n).
Proof. destruct ls; [contradiction | reflexivity]. Qed.

Lemma split_lines_before_CRLF l rest :
  occurrences LF l = 0%nat ->
  split_lines (l ++ CR :: LF :: rest) = l :: split_lines rest.
Proof.
  induction l as [|c l IH]; intros H; [reflexivity|].
  rewrite occurrences_cons in H. rewrite (N.eqb_sym LF c) in H.
  destruct (c =? LF) eqn:Elf; [discriminate|]. simpl in H.
  change ((c :: l) ++ CR :: LF :: rest) with (c :: (l ++ CR :: LF :: rest)).
  cbn [split_lines]. rewrite Elf.
  assert (E : (c =? CR) && match l ++ CR :: LF :: rest with
                           | [] => false
                           | d :: _ => d =? LF
                           end = false).
  { destruct l as [|d l]; cbn [app].
    - change (CR =? LF) with false. apply andb_false_r.
    - rewrite occurrences_cons, (N.eqb_sym LF d) in H.
      destruct (d =? LF); [discriminate | apply andb_false_r]. }
  now rewrite E, IH.
Qed.

(** The lines after a line feed come after the lines before it. *)
Lemma split_lines_skip p rest k :
  nth_error (split_lines (p ++ LF :: rest)) (S (occurrences LF p) + k) =
  nth_error (split_lines rest) k.
Proof.
  induction p as [|c p IH]; [reflexivity|].
  change ((c :: p) ++ LF :: rest) with (c :: (p ++ LF :: rest)).
  rewrite occurrences_cons, (N.eqb_sym LF c). cbn [split_lines].
  destruct (c =? LF) eqn:Elf.
  - simpl. exact IH.
  - simpl Nat.add. destruct ((c =? CR) && _); [exact IH|].
    fold (prepend c (split_lines (p ++ LF :: rest))).
    rewrite nth_error_prepend by apply split_lines_not_nil. exact IH.
Qed.

Lemma split_lines_line l :
  count_char LF l = 0%nat -> split_lines l = [l].
Proof.
  induction l as [|c l IH]; intros H; [reflexivity|].
  rewrite count_char_cons in H. cbn [split_lines]. unfold char_eqb in H.
  rewrite (N.eqb_sym LF c) in H.
  destruct (c =? LF) eqn:Elf; [discriminate|]. simpl in H.
  destruct l as [|d l].
  - now rewrite andb_false_r.
  - rewrite count_char_cons in H. unfold char_eqb in H.
    rewrite (N.eqb_sym LF d) in H.
    destruct (d =? LF) eqn:Ed; [discriminate|]. rewrite andb_false_r.
    rewrite IH; [reflexivity|]. rewrite count_char_cons. unfold char_eqb.
    now rewrite (N.eqb_sym LF d), Ed.
Qed.

Lemma split_lines_first l rest :
  count_char LF l = 0%nat -> no_CR_at_end l ->
  split_lines (l ++ LF :: rest) = l :: split_lines rest.
Proof.
  induction l as [|c l IH]; intros H Hcr; [reflexivity|].
  rewrite count_char_cons in H. unfold char_eqb in H.
  rewrite (N.eqb_sym LF c) in H.
  destruct (c =? LF) eqn:Elf; [discriminate|]. simpl in H.
  change ((c :: l) ++ LF :: rest) with (c :: (l ++ LF :: rest)).
  cbn [split_lines]. rewrite Elf.
  assert (E : (c =? CR) && match l ++ LF :: rest with
                           | [] => false
                           | d :: _ => d =? LF
                           end = false).
  { destruct l as [|d l]; cbn [app].
    - rewrite N.eqb_refl, andb_true_r. apply N.eqb_neq. intros ->.
      now apply (Hcr []).
    - rewrite count_char_cons in H. unfold char_eqb in H.
      rewrite (N.eqb_sym LF d) in H.
      destruct (d =? LF); [discriminate | apply andb_false_r]. }
  rewrite E, IH; [reflexivity | assumption |].
  intros u ->. now apply (Hcr (c :: u)).
Qed.

Lemma split_lines_head l post :
  occurrences LF l = 0%nat ->
  post = [] \/
  (exists post', post = LF :: post') /\ (forall u, l <> u ++ [CR]) \/
  (exists post', post = CR :: LF :: post') ->
  nth_error (split_lines (l ++ post)) 0 = Some l.
Proof.
  intros Hl [-> | [[(post' & ->) Hcr] | (post' & ->)]].
  - rewrite app_nil_r, split_lines_line; [reflexivity|].
    now rewrite count_char_occurrences.
  - rewrite split_lines_first; [reflexivity | | exact Hcr].
    now rewrite count_char_occurrences.
  - now rewrite split_lines_before_CRLF.
Qed.

Lemma nth_of_line_at code i l :
  line_at code i l -> nth_error (split_lines code) i = Some l.
Proof.
  intros (pre & post & -> & Hi & Hpre & Hl & Hpost).
  destruct Hpre as [-> | (pre' & ->)].
  - simpl in Hi. subst i. change ([] ++ l ++ post) with (l ++ post).
    now apply split_lines_head.
  - rewrite occurrences_app in Hi.
    change (occurrences LF [LF]) with 1%nat in Hi.
    rewrite <- app_assoc. change ([LF] ++ l ++ post) with (LF :: l ++ post).
    replace i with (S (occurrences LF pre') + 0)%nat by lia.
    rewrite split_lines_skip. now apply split_lines_head.
Qed.

Lemma ends_with_LF_count pre :
  (pre = [] \/ exists pre', pre = pre' ++ [LF]) ->
  occurrences LF pre = 0%nat -> pre = [].
Proof.
  intros [-> | (pre' & ->)] H; [reflexivity|].
  rewrite occurrences_app in H. change (occurrences LF [LF]) with 1%nat in H.
  lia.
Qed.

Lemma ends_with_LF_cons c pre n :
  (pre = [] \/ exists pre', pre = pre' ++ [LF]) ->
  occurrences LF pre = S n -> exists pre', c :: pre = pre' ++ [LF].
Proof.
  intros [-> | (pre' & ->)] H; [discriminate H|]. now exists (c :: pre').
Qed.

Lemma line_at_of_nth code i l :
  nth_error (split_lines code) i = Some l -> line_at code i l.
Proof.
  revert i l. induction code as [|c s IH]; intros i l H.
  - destruct i as [|[|i]]; simpl in H; try discriminate.
    injection H as <-. exists [], []. repeat split; auto.
  - cbn [split_lines] in H. destruct (c =? LF) eqn:Elf.
    + apply N.eqb_eq in Elf. subst c. destruct i as [|i]; simpl in H.
      * injection H as <-. exists [], (LF :: s). repeat split; auto.
        right. left. split; [now exists s|]. intros [|? ?] E; discriminate E.
      * destruct (IH i l H) as (pre & post & -> & Hi & Hpre & Hl & Hpost).
        exists (LF :: pre), post. repeat split; try assumption.
        -- rewrite occurrences_cons. now rewrite Hi.
        -- right. destruct Hpre as [-> | (pre' & ->)];
             [now exists [] | now exists (LF :: pre')].
    + destruct ((c =? CR) && _) eqn:Ecr.
      * apply andb_true_iff in Ecr. destruct Ecr as [Ec Ed].
        apply N.eqb_eq in Ec. subst c.
        destruct s as [|d s]; [discriminate|].
        apply N.eqb_eq in Ed. subst d.
        destruct i as [|i].
        -- simpl in H. injection H as <-. exists [], (CR :: LF :: s).
           repeat split; auto. right. right. now exists s.
        -- destruct (IH (S i) l H)
             as (pre & post & -> & Hi & Hpre & Hl & Hpost).
           exists (CR :: pre), post. repeat split; try assumption.
           right. exact (ends_with_LF_cons CR pre i Hpre Hi).
      * pose proof (split_lines_not_nil s) as Hnn.
        destruct (split_lines s) as [|l0 ls] eqn:Es; [contradiction|].
        destruct i as [|i]; simpl in H.
        -- injection H as <-.
           destruct (IH 0%nat l0 eq_refl)
             as (pre & post & E & Hi & Hpre & Hl & Hpost).
           rewrite (ends_with_LF_count pre Hpre Hi) in E. simpl in E.
           subst s. exists [], post. repeat split; auto.
           ++ rewrite occurrences_cons, (N.eqb_sym LF c), Elf. exact Hl.
           ++ destruct Hpost as [-> | [[(post' & ->) Hcr] | Hp]];
                [now left | | now right; right].
              right. left. split; [now exists post'|].
              intros [|c' u] E.
              ** injection E as -> ->. simpl in Ecr. discriminate Ecr.
              ** injection E as _ ->. now apply (Hcr u).
        -- destruct (IH (S i) l H)
             as (pre & post & -> & Hi & Hpre & Hl & Hpost).
           exists (c :: pre), post. repeat split; try assumption.
           ++ rewrite occurrences_cons, (N.eqb_sym LF c), Elf. exact Hi.
           ++ right. exact (ends_with_LF_cons c pre i Hpre Hi).
Qed.

(** The lines that the handlers get by splitting are the lines of the
    buffer, with their numbers. *)
Lemma line_at_iff code i l :
  nth_error (split_lines code) i = Some l <-> line_at code i l.
Proof. split; [apply line_at_of_nth | apply nth_of_line_at]. Qed.

Lemma StronglySorted_filter (p : nat -> bool) (l : list nat) :
  StronglySorted lt l -> StronglySorted lt (filter p l).
Proof.
  induction 1 as [|x l Hl IH Hx]; simpl; [constructor|].
  destruct (p x); [|assumption]. constructor; [assumption|].
  rewrite Forall_forall in *. intros y Hy. apply Hx.
  now apply filter_In in Hy.
Qed.

Lemma StronglySorted_seq (a n : nat) : StronglySorted lt (List.seq a n).
Proof.
  revert a. induction n as [|n IH]; intros a; simpl; constructor.
  - apply IH.
  - apply Forall_forall. intros y Hy. apply in_seq in Hy. lia.
Qed.

End LinesFacts.

(** ** Soundness and completeness of the matchers *)

Module RegexFacts.
Import JS Regex Words.

Lemma rev_cons_app (c : char) (w b : jsstring) :
  List.rev (c :: w) ++ b = List.rev w ++ c :: b.
Proof. simpl. now rewrite <- app_assoc. Qed.

Section Combinators.

Variables (p : char -> bool) (m1 m2 : matcher) (D1 D2 : words).

Lemma sound_cls : sound (cls p) (D_cls p).
Proof.
  intros k b [|c a] r H; simpl in H; [discriminate|].
  destruct (p c) eqn:E; [|discriminate].
  exists [c], a. repeat split; try assumption. now exists c.
Qed.

Lemma complete_cls : complete (cls p) (D_cls p).
Proof.
  intros k b w a' (c & -> & Hc) Hk. simpl. now rewrite Hc.
Qed.

Lemma sound_star : sound (star p) (D_star p).
Proof.
  intros k b a. revert b. induction a as [|c a IH]; intros b r H.
  - exists [], []. now repeat split.
  - simpl in H. destruct (p c) eqn:E.
    + destruct (star p k (c :: b) a) as [r'|] eqn:E'.
      * injection H as ->. apply IH in E'.
        destruct E' as (w & a' & -> & Hw & Hk).
        exists (c :: w), a'. rewrite rev_cons_app.
        repeat split; try assumption.
        unfold D_star in *. simpl. now rewrite E, Hw.
      * exists [], (c :: a). now repeat split.
    + exists [], (c :: a). now repeat split.
Qed.

Lemma star_gives_back k b a : k b a <> None -> star p k b a <> None.
Proof.
  intros H. destruct a as [|c a]; simpl; [assumption|].
  destruct (p c); [|assumption].
  destruct (star p k (c :: b) a); [discriminate | assumption].
Qed.

Lemma complete_star : complete (star p) (D_star p).
Proof.
  intros k b w. revert b. induction w as [|c w IH]; intros b a' Hw Hk.
  - now apply star_gives_back.
  - unfold D_star in Hw. simpl in Hw. apply andb_true_iff in Hw.
    destruct Hw as [Hc Hw]. rewrite rev_cons_app in Hk.
    simpl. rewrite Hc.
    specialize (IH (c :: b) a' Hw Hk).
    destruct (star p k (c :: b) (w ++ a')); [discriminate | contradiction].
Qed.

Hypotheses (S1 : sound m1 D1) (S2 : sound m2 D2).
Hypotheses (C1 : complete m1 D1) (C2 : complete m2 D2).

Lemma sound_seq : sound (seq m1 m2) (D_seq D1 D2).
Proof.
  intros k b a r H. unfold seq in H.
  apply S1 in H. destruct H as (w1 & a1 & -> & H1 & H).
  apply S2 in H. destruct H as (w2 & a2 & -> & H2 & H).
  exists (w1 ++ w2), a2. rewrite rev_app_distr, <- !app_assoc.
  repeat split; try assumption. now exists w1, w2.
Qed.

Lemma complete_seq : complete (seq m1 m2) (D_seq D1 D2).
Proof.
  intros k b w a' (w1 & w2 & -> & H1 & H2) Hk. unfold seq.
  rewrite <- app_assoc. apply C1; [assumption|].
  apply C2; [assumption|].
  now rewrite rev_app_distr, <- app_assoc in Hk.
Qed.

Lemma sound_alt : sound (alt m1 m2) (D_alt D1 D2).
Proof.
  intros k b a r H. unfold alt in H.
  destruct (m1 k b a) as [r'|] eqn:E.
  - injection H as ->. apply S1 in E.
    destruct E as (w & a' & -> & Hw & Hk).
    exists w, a'. repeat split; try assumption. now left.
  - apply S2 in H. destruct H as (w & a' & -> & Hw & Hk).
    exists w, a'. repeat split; try assumption. now right.
Qed.

Lemma complete_alt : complete (alt m1 m2) (D_alt D1 D2).
Proof.
  intros k b w a' [H|H] Hk; unfold alt.
  - specialize (C1 _ _ _ _ H Hk). now destruct (m1 k b (w ++ a')).
  - specialize (C2 _ _ _ _ H Hk). now destruct (m1 k b (w ++ a')).
Qed.

End Combinators.

Lemma sound_chr c : sound (chr c) (D_lit [c]).
Proof.
  intros k b a r H. apply sound_cls in H.
  destruct H as (w & a' & -> & (d & -> & Hd) & Hk).
  apply JSFacts.char_eqb_eq in Hd. subst d. now exists [c], a'.
Qed.

Lemma complete_chr c : complete (chr c) (D_lit [c]).
Proof.
  intros k b w a' -> Hk. apply complete_cls; [|assumption].
  exists c. split; [reflexivity|]. now apply JSFacts.char_eqb_eq.
Qed.

Lemma sound_lit s : sound (lit s) (D_lit s).
Proof.
  induction s as [|c s IH]; intros k b a r H.
  - now exists [], a.
  - simpl in H. apply sound_chr in H.
    destruct H as (w1 & a1 & -> & -> & H). apply IH in H.
    destruct H as (w2 & a2 & -> & -> & H).
    exists (c :: s), a2. rewrite rev_cons_app. now repeat split.
Qed.

Lemma complete_lit s : complete (lit s) (D_lit s).
Proof.
  induction s as [|c s IH]; intros k b w a' -> Hk; [assumption|].
  change (chr c (lit s k) b ([c] ++ s ++ a') <> None).
  apply complete_chr; [reflexivity|].
  apply IH; [reflexivity|]. now rewrite rev_cons_app in Hk.
Qed.

Lemma sound_lit_i s : sound (lit_i s) (D_lit_i s).
Proof.
  induction s as [|c s IH]; intros k b a r H.
  - exists [], a. repeat split; [constructor | assumption].
  - simpl in H. apply sound_cls in H.
    destruct H as (w1 & a1 & -> & (d & -> & Hd) & H). apply IH in H.
    destruct H as (w2 & a2 & -> & Hw & H).
    exists (d :: w2), a2. rewrite rev_cons_app.
    repeat split; try assumption. now constructor.
Qed.

Lemma complete_lit_i s : complete (lit_i s) (D_lit_i s).
Proof.
  induction s as [|c s IH]; intros k b w a' Hw Hk.
  - inversion Hw. subst. assumption.
  - inversion Hw as [|? d ? w' Hd Hw']. subst.
    change (cls (char_eqb_i c) (lit_i s k) b ([d] ++ w' ++ a') <> None).
    apply complete_cls.
    + now exists d.
    + apply IH; [assumption|]. now rewrite rev_cons_app in Hk.
Qed.

Lemma sound_bol_m : sound bol_m D_bol_m.
Proof.
  intros k b a r H. unfold bol_m in H. exists [], a.
  destruct b as [|c b]; [now repeat split|].
  destruct (is_line_terminator c) eqn:E; [|discriminate].
  now repeat split.
Qed.

Lemma complete_bol_m : complete bol_m D_bol_m.
Proof.
  intros k b w a' [-> Hb] Hk. unfold bol_m, at_bol in *.
  destruct b as [|c b]; [assumption|]. now rewrite Hb.
Qed.

Lemma sound_eol_m : sound eol_m D_eol_m.
Proof.
  intros k b a r H. unfold eol_m in H. exists [], a.
  destruct a as [|c a]; [now repeat split|].
  destruct (is_line_terminator c) eqn:E; [|discriminate].
  now repeat split.
Qed.

Lemma complete_eol_m : complete eol_m D_eol_m.
Proof.
  intros k b w a' [-> Ha] Hk. unfold eol_m, at_eol in *.
  destruct a' as [|c a']; [assumption|]. simpl. now rewrite Ha.
Qed.

Lemma sound_eoi : sound eoi D_eoi.
Proof.
  intros k b a r H. unfold eoi in H. exists [], a.
  destruct a as [|c a]; [now repeat split | discriminate].
Qed.

Lemma complete_eoi : complete eoi D_eoi.
Proof. intros k b w a' [-> ->] Hk. assumption. Qed.

(** The search: a result of [exec] is a split of the input with a word of
    the pattern in the middle; and any such split makes [exec] succeed. *)
Lemma exec_from_sound m D b a b0 b1 a1 :
  sound m D -> exec_from m b a = Some (b0, (b1, a1)) ->
  exists u w, a = u ++ w ++ a1 /\ b0 = List.rev u ++ b /\
              b1 = List.rev w ++ b0 /\ D b0 w a1.
Proof.
  intros Hs. revert b. induction a as [|c a IH]; intros b H; simpl in H.
  - destruct (m accept b []) as [r|] eqn:E; [|discriminate].
    injection H as <- ->. apply Hs in E.
    destruct E as (w & a' & Ha & Hw & Hk). injection Hk as <- <-.
    exists [], w. now repeat split.
  - destruct (m accept b (c :: a)) as [r|] eqn:E.
    + injection H as <- ->. apply Hs in E.
      destruct E as (w & a' & Ha & Hw & Hk). injection Hk as <- <-.
      exists [], w. now repeat split.
    + apply IH in H. destruct H as (u & w & -> & -> & -> & Hw).
      exists (c :: u), w. rewrite rev_cons_app. now repeat split.
Qed.

Lemma exec_from_complete m D b u w a1 :
  complete m D -> D (List.rev u ++ b) w a1 ->
  exec_from m b (u ++ w ++ a1) <> None.
Proof.
  intros Hc. revert b. induction u as [|c u IH]; intros b Hw.
  - simpl in *. assert (E : m accept b (w ++ a1) <> None).
    { apply Hc with (1 := Hw). discriminate. }
    destruct (w ++ a1); simpl; destruct (m accept b _); congruence.
  - rewrite rev_cons_app in Hw. apply IH in Hw. simpl.
    now destruct (m accept b (c :: u ++ w ++ a1)).
Qed.

Lemma test_iff m D s :
  sound m D -> complete m D -> (test m s = true <-> found D s).
Proof.
  intros Hs Hc. unfold test, exec. split.
  - destruct (exec_from m [] s) as [[b0 [b1 a1]]|] eqn:E; [|discriminate].
    intros _. eapply exec_from_sound in E; [|exact Hs].
    destruct E as (u & w & -> & -> & -> & Hw).
    exists u, w, a1. now rewrite app_nil_r in Hw.
  - intros (u & w & a & -> & Hw).
    assert (H : exec_from m [] (u ++ w ++ a) <> None).
    { eapply exec_from_complete; [exact Hc|]. now rewrite app_nil_r. }
    now destruct (exec_from m [] (u ++ w ++ a)).
Qed.

(** The text of the match that [match_] returns is a word of the pattern
    inside the input. *)
Lemma match_sound m D s t :
  sound m D -> match_ m s = Some t ->
  exists u a, s = u ++ t ++ a /\ D (List.rev u) t a.
Proof.
  intros Hs H. unfold match_, exec in H.
  destruct (exec_from m [] s) as [[b0 [b1 a1]]|] eqn:E; [|discriminate].
  injection H as <-. eapply exec_from_sound in E; [|exact Hs].
  destruct E as (u & w & -> & -> & -> & Hw). rewrite app_nil_r in *.
  exists u, a1. unfold matched.
  rewrite length_app, Nat.add_sub, firstn_app.
  rewrite Nat.sub_diag, firstn_all, firstn_O, app_nil_r, rev_involutive.
  now split.
Qed.

Lemma match_test m s :
  test m s = match match_ m s with Some _ => true | None => false end.
Proof. unfold test, match_. now destruct (exec m s). Qed.

End RegexFacts.

(** ** The detector *)

Module Detector.
Import JS Regex Mock Words Spec JSFacts LinesFacts RegexFacts.

Create HintDb regex.
#[local] Hint Resolve sound_seq complete_seq sound_star complete_star
  sound_lit complete_lit sound_chr complete_chr sound_bol_m complete_bol_m
  sound_eol_m complete_eol_m sound_eoi complete_eoi sound_cls complete_cls
  sound_alt complete_alt sound_lit_i complete_lit_i : regex.

Lemma sound_printf_line : sound re_printf_line D_printf_line.
Proof. unfold re_printf_line, D_printf_line. auto 12 with regex. Qed.

Lemma complete_printf_line : complete re_printf_line D_printf_line.
Proof. unfold re_printf_line, D_printf_line. auto 12 with regex. Qed.

Lemma sound_semi_end : sound re_semi_end D_semi_end.
Proof. unfold re_semi_end, D_semi_end. auto with regex. Qed.

Lemma sound_semi_semi : sound re_semi_semi (D_lit (str ";;")).
Proof. apply sound_lit. Qed.

Lemma complete_semi_semi : complete re_semi_semi (D_lit (str ";;")).
Proof. apply complete_lit. Qed.

Lemma test_printf_line_iff code :
  test re_printf_line code = true <-> unterminated_printf code.
Proof.
  rewrite (test_iff _ _ code sound_printf_line complete_printf_line).
  unfold found, D_printf_line, unterminated_printf. split.
  - intros (u & w & a & -> & H).
    destruct H as (w0 & r0 & -> & [-> Hbol] & H).
    destruct H as (l & r1 & -> & Hl & H).
    destruct H as (w2 & r2 & -> & -> & H).
    destruct H as (ws & r3 & -> & Hws & H).
    destruct H as (w4 & r4 & -> & -> & H).
    destruct H as (body & r5 & -> & Hbody & H).
    destruct H as (w6 & r6 & -> & -> & H).
    destruct H as (blanks & r7 & -> & Hblanks & -> & Heol).
    exists u, l, ws, body, blanks, a.
    simpl in Hbol. rewrite app_nil_r in *.
    repeat split; try assumption.
    now rewrite <- !app_assoc.
  - intros (pre & l & ws & body & blanks & post & -> & Hbol & Hl & Hws
            & Hbody & Hblanks & Heol).
    exists pre, (l ++ str "printf" ++ ws ++ [40] ++ body ++ [41] ++ blanks),
      post.
    split; [now rewrite <- !app_assoc|].
    exists [], (l ++ str "printf" ++ ws ++ [40] ++ body ++ [41] ++ blanks).
    split; [reflexivity|]. split; [now split|].
    exists l, (str "printf" ++ ws ++ [40] ++ body ++ [41] ++ blanks).
    split; [reflexivity|]. split; [assumption|].
    exists (str "printf"), (ws ++ [40] ++ body ++ [41] ++ blanks).
    split; [reflexivity|]. split; [reflexivity|].
    exists ws, ([40] ++ body ++ [41] ++ blanks).
    split; [reflexivity|]. split; [assumption|].
    exists [40], (body ++ [41] ++ blanks).
    split; [reflexivity|]. split; [reflexivity|].
    exists body, ([41] ++ blanks).
    split; [reflexivity|]. split; [assumption|].
    exists [41], blanks.
    split; [reflexivity|]. split; [reflexivity|].
    exists blanks, []. rewrite app_nil_r.
    split; [reflexivity|]. split; [assumption|]. now split.
Qed.

Lemma test_semi_semi_iff l :
  test re_semi_semi l = true <-> adjacent_semicolons l.
Proof.
  rewrite (test_iff _ _ l sound_semi_semi complete_semi_semi).
  unfold found, D_lit, adjacent_semicolons. split.
  - intros (u & w & a & -> & ->). now exists u, a.
  - intros (u & v & ->). now exists u, (str ";;"), v.
Qed.

(** Two ways of reading the end of one text cannot disagree: a text that
    ends in [)] and blanks does not end in [;] and white space. *)
Lemma tails_disagree (x y s1 s2 : jsstring) :
  forallb is_blank s1 = true -> forallb is_space s2 = true ->
  x ++ 41 :: s1 <> y ++ 59 :: s2.
Proof.
  intros H1 H2 E. apply app_eq_app in E.
  destruct E as (l & [[-> E] | [-> E]]).
  - destruct l as [|c l]; [discriminate|]. injection E as <- ->.
    rewrite forallb_app in H2. now apply andb_true_iff in H2.
  - destruct l as [|c l]; [discriminate|]. injection E as <- ->.
    rewrite forallb_app in H1. now apply andb_true_iff in H1.
Qed.

(** The text that the missing-semicolon pattern matches never ends in a
    semicolon: the second test of the check always lets the diagnostic
    through. *)
Lemma lineText_no_semi_end code lineText :
  match_ re_printf_line code = Some lineText ->
  test re_semi_end lineText = false.
Proof.
  intros H. eapply match_sound in H; [|exact sound_printf_line].
  destruct H as (u & a & _ & H).
  destruct (test re_semi_end lineText) eqn:E; [exfalso | reflexivity].
  unfold test, exec in E.
  destruct (exec_from re_semi_end [] lineText) as [[b0 [b1 a1]]|] eqn:E';
    [clear E | discriminate].
  eapply exec_from_sound in E'; [|exact sound_semi_end].
  destruct E' as (y & w & Ht & _ & _ & Hw).
  destruct Hw as (w1 & r1 & -> & -> & s2 & r2 & -> & Hs2 & -> & ->).
  destruct H as (w0 & r0 & -> & [-> Hbol] & H).
  destruct H as (l & q1 & -> & Hl & H).
  destruct H as (w2 & q2 & -> & -> & H).
  destruct H as (ws & q3 & -> & Hws & H).
  destruct H as (w4 & q4 & -> & -> & H).
  destruct H as (body & q5 & -> & Hbody & H).
  destruct H as (w6 & q6 & -> & -> & H).
  destruct H as (blanks & q7 & -> & Hblanks & -> & Heol).
  rewrite !app_nil_r in Ht.
  apply (tails_disagree (l ++ str "printf" ++ ws ++ [40] ++ body) y
           blanks s2 Hblanks Hs2).
  etransitivity; [|exact Ht]. now rewrite <- !app_assoc.
Qed.

Lemma extra_semicolon_loop_app lines i errors :
  extra_semicolon_loop lines i errors = errors ++ extra_errors lines i.
Proof.
  revert i errors. induction lines as [|l ls IH]; intros i errors; simpl.
  - now rewrite app_nil_r.
  - rewrite IH. unfold push.
    destruct (test re_semi_semi l); [now rewrite <- app_assoc | reflexivity].
Qed.

Lemma semicolon_check code (errors : list Diagnostic) :
  match match_ re_printf_line code with
  | Some lineText =>
      if negb (test re_semi_end lineText)
      then push errors err_missing_semicolon else errors
  | None => errors
  end = errors ++ semicolon_errors code.
Proof.
  unfold semicolon_errors. rewrite match_test.
  destruct (match_ re_printf_line code) as [lineText|] eqn:E.
  - now rewrite (lineText_no_semi_end _ _ E).
  - now rewrite app_nil_r.
Qed.

Lemma compile_handler_eq code :
  compile_handler code =
  if (List.length (detected code) =? 0)%nat then
    mkCompileResponse (str "success") (str "Mock compilation succeeded")
      success_tokens [] []
  else
    mkCompileResponse (str "error") (str "Mock compilation failed")
      [] (detected code) (generateFixes code (detected code)).
Proof.
  unfold compile_handler. cbv zeta.
  rewrite semicolon_check, extra_semicolon_loop_app.
  assert (E : (if negb (Nat.eqb (count_open code) (count_close code))
     then push (((if test re_printf code && negb (test re_stdio_include code)
                  then push [] err_stdio else []) ++ semicolon_errors code)
                ++ extra_errors (split_lines code) 0) err_braces
     else ((if test re_printf code && negb (test re_stdio_include code)
            then push [] err_stdio else []) ++ semicolon_errors code)
          ++ extra_errors (split_lines code) 0) = detected code).
  { unfold detected, stdio_errors, brace_errors, push.
    destruct (Nat.eqb (count_open code) (count_close code)); simpl negb;
      cbv iota; destruct (test re_printf code && _);
      rewrite <- ?app_assoc, ?app_nil_r; reflexivity. }
  now rewrite E.
Qed.

Lemma fix_handler_eq code :
  fix_handler code = mkFixResponse (generateFixes code (detected code)).
Proof.
  unfold fix_handler. cbv zeta.
  rewrite semicolon_check, extra_semicolon_loop_app. f_equal. f_equal.
  unfold detected, stdio_errors, brace_errors, push.
  destruct (Nat.eqb (count_open code) (count_close code)); simpl negb;
    cbv iota; destruct (test re_printf code && _);
    rewrite <- ?app_assoc, ?app_nil_r; reflexivity.
Qed.

Lemma analyze_eq code : analyze code = detected code.
Proof.
  unfold analyze. rewrite compile_handler_eq.
  now destruct (detected code).
Qed.

Lemma kind_message_inj k k' : kind_message k = kind_message k' -> k = k'.
Proof. destruct k, k'; intros H; try reflexivity; discriminate H. Qed.

Lemma has_kind_true k d : err_message d = kind_message k -> has_kind k d = true.
Proof. intros H. now apply JSFacts.str_eqb_eq. Qed.

Lemma has_kind_false k k' d :
  err_message d = kind_message k' -> k' <> k -> has_kind k d = false.
Proof.
  intros H Hk. destruct (has_kind k d) eqn:E; [|reflexivity].
  apply JSFacts.str_eqb_eq in E. rewrite H in E.
  now apply kind_message_inj in E.
Qed.

Lemma filter_same_kind k ds : all_of_kind k ds -> filter (has_kind k) ds = ds.
Proof.
  induction 1 as [|d ds Hd _ IH]; [reflexivity|].
  simpl. now rewrite (has_kind_true _ _ Hd), IH.
Qed.

Lemma filter_other_kind k k' ds :
  all_of_kind k' ds -> k' <> k -> filter (has_kind k) ds = [].
Proof.
  intros H Hk. induction H as [|d ds Hd _ IH]; [reflexivity|].
  simpl. now rewrite (has_kind_false _ _ _ Hd Hk).
Qed.

Lemma stdio_errors_kind code : all_of_kind MissingInclude (stdio_errors code).
Proof.
  unfold stdio_errors. destruct (_ && _); repeat constructor.
Qed.

Lemma semicolon_errors_kind code :
  all_of_kind MissingSemicolon (semicolon_errors code).
Proof.
  unfold semicolon_errors. destruct (test _ _); repeat constructor.
Qed.

Lemma extra_errors_kind lines i :
  all_of_kind ExtraSemicolon (extra_errors lines i).
Proof.
  revert i. induction lines as [|l ls IH]; intros i; simpl; [constructor|].
  destruct (test re_semi_semi l); [constructor; [reflexivity|]|]; apply IH.
Qed.

Lemma brace_errors_kind code : all_of_kind UnmatchedBraces (brace_errors code).
Proof.
  unfold brace_errors. destruct (Nat.eqb _ _); repeat constructor.
Qed.

Lemma filter_kind k k' ds :
  all_of_kind k' ds ->
  filter (has_kind k) ds = if kind_eqb k' k then ds else [].
Proof.
  intros H. destruct (kind_eqb k' k) eqn:E.
  - replace k with k' by (destruct k, k'; try reflexivity; discriminate E).
    now apply filter_same_kind.
  - apply (filter_other_kind _ _ _ H). intros ->. now destruct k.
Qed.

(** The diagnostics of one kind are the result of that kind's check. *)
Lemma filter_detected k code :
  filter (has_kind k) (detected code) =
  match k with
  | MissingInclude => stdio_errors code
  | MissingSemicolon => semicolon_errors code
  | ExtraSemicolon => extra_errors (split_lines code) 0
  | UnmatchedBraces => brace_errors code
  end.
Proof.
  unfold detected. rewrite !filter_app.
  rewrite (filter_kind k _ _ (stdio_errors_kind code)).
  rewrite (filter_kind k _ _ (semicolon_errors_kind code)).
  rewrite (filter_kind k _ _ (extra_errors_kind (split_lines code) 0)).
  rewrite (filter_kind k _ _ (brace_errors_kind code)).
  destruct k; simpl; now rewrite ?app_nil_r.
Qed.

Lemma extra_errors_offending (pre lines : list jsstring) :
  extra_errors lines (List.length pre) =
  List.map err_extra_semicolon
    (filter (fun i => test re_semi_semi (nth i (pre ++ lines) []))
       (List.seq (List.length pre) (List.length lines))).
Proof.
  revert pre. induction lines as [|l ls IH]; intros pre; [reflexivity|].
  simpl. rewrite app_nth2, Nat.sub_diag by lia. simpl nth.
  specialize (IH (pre ++ [l])). rewrite length_app, <- app_assoc in IH.
  simpl in IH. rewrite Nat.add_1_r in IH. rewrite IH.
  now destruct (test re_semi_semi l).
Qed.

(** The diagnostics of each kind in a run of [analyze]. *)
Lemma braces_of_analyze code :
  filter (has_kind UnmatchedBraces) (analyze code) = brace_errors code.
Proof. now rewrite analyze_eq, filter_detected. Qed.

Lemma extras_of_analyze code :
  filter (has_kind ExtraSemicolon) (analyze code) =
  extra_errors (split_lines code) 0.
Proof. now rewrite analyze_eq, filter_detected. Qed.

Lemma semicolons_of_analyze code :
  filter (has_kind MissingSemicolon) (analyze code) = semicolon_errors code.
Proof. now rewrite analyze_eq, filter_detected. Qed.


(** C8. For every source buffer, [analyze] emits exactly one
    [ExtraSemicolon] diagnostic for each line of the buffer that has two
    semicolons in a row, with that line's number counted from 1, and for no
    other line: the diagnostics of that kind are those of a strictly rising
    list of line indices, and a line index is in the list exactly when the
    line of the buffer at that index has adjacent semicolons. *)
Theorem extra_semicolon_each_line (code : jsstring) :
  exists ls : list nat,
    filter (has_kind ExtraSemicolon) (analyze code) =
      List.map err_extra_semicolon ls /\
    StronglySorted lt ls /\
    (forall i, In i ls <->
       exists l, line_at code i l /\ adjacent_semicolons l) /\
    (forall i, err_line (err_extra_semicolon i) = Some (Z.of_nat i + 1)%Z).
Proof.
  exists (offending_lines (split_lines code)).
  split; [|split; [|split]].
  - rewrite extras_of_analyze.
    apply (extra_errors_offending [] (split_lines code)).
  - apply StronglySorted_filter, StronglySorted_seq.
  - intros i. unfold offending_lines. rewrite filter_In, in_seq. split.
    + intros [[_ Hi] Ht]. simpl in Hi.
      destruct (nth_error (split_lines code) i) as [l|] eqn:E.
      * exists l. split; [now apply line_at_iff|].
        apply test_semi_semi_iff.
        now rewrite (nth_error_nth _ _ _ E) in Ht.
      * apply nth_error_None in E. lia.
    + intros (l & E & Hl). apply line_at_iff in E. split.
      * split; [lia|]. simpl. apply nth_error_Some. congruence.
      * rewrite (nth_error_nth _ _ _ E). now apply test_semi_semi_iff.
  - reflexivity.
Qed.

(** C3, as the code has it.  For every source buffer, [analyze] emits at
    most one [MissingSemicolon] diagnostic: one exactly when the buffer has
    an unterminated [printf], none otherwise; the diagnostic carries no line
    number. *)
Theorem missing_semicolon_at_most_once (code : jsstring) :
  filter (has_kind MissingSemicolon) (analyze code) =
    (if test re_printf_line code then [err_missing_semicolon] else []) /\
  (test re_printf_line code = true <-> unterminated_printf code) /\
  err_line err_missing_semicolon = None.
Proof.
  split; [|split].
  - apply semicolons_of_analyze.
  - apply test_printf_line_iff.
  - reflexivity.
Qed.

(** C3 as stated fails: on the one-line buffer [printf(x)] the diagnostic
    is emitted, and its line is not 1: it has none. *)
Lemma missing_semicolon_has_no_line :
  ~ (forall d, In d (analyze bare_printf) ->
       has_kind MissingSemicolon d = true -> err_line d = Some 1%Z) /\
  In err_missing_semicolon (analyze bare_printf).
Proof.
  split.
  - intros H. specialize (H err_missing_semicolon).
    assert (E : err_line err_missing_semicolon = Some 1%Z).
    { apply H; [|reflexivity]. vm_compute. auto. }
    discriminate E.
  - vm_compute. auto.
Qed.

(** C9. For every code string the fixes of the [/fix] response are the
    fixes of the [/compile] response. *)
Theorem fix_fixes_eq_compile_fixes (code : jsstring) :
  fix_fixes (fix_handler code) = fixes (compile_handler code).
Proof.
  rewrite fix_handler_eq, compile_handler_eq.
  now destruct (detected code).
Qed.

(** C10. For every input with no diagnostics, the tokens of the response
    are the keyword [int] and the identifier [main], both at line 1,
    whatever the text is. *)
Theorem success_tokens_constant (code : jsstring) :
  analyze code = [] ->
  tokens (compile_handler code) =
    [ mkToken (str "keyword") (str "int") 1;
      mkToken (str "identifier") (str "main") 1 ].
Proof.
  rewrite analyze_eq, compile_handler_eq. now intros ->.
Qed.

Lemma success_tokens_constant_witness :
  analyze scenario_D = [] /\
  tokens (compile_handler scenario_D) =
    [ mkToken (str "keyword") (str "int") 1;
      mkToken (str "identifier") (str "main") 1 ].
Proof.
  split; [reflexivity | apply (success_tokens_constant scenario_D)].
  reflexivity.
Defined.

(** C2, as the code has it.  For the buffer of scenario B, [analyze]
    returns two diagnostics, the missing include and the unmatched braces,
    and [suggest_fixes] two edits: the insertion of the include at line 1
    and the insertion of a closing brace at line 4, one past the three
    lines of the buffer. *)
Theorem scenario_B_diagnostics_and_fixes :
  analyze scenario_B = [err_stdio; err_braces] /\
  List.length (split_lines scenario_B) = 3%nat /\
  suggest_fixes scenario_B (analyze scenario_B) =
    [ fix_stdio;
      mkFix (str "Add missing closing brace at end of file") (85 # 100)
        (mkEdit (str "insert") (Some 4%Z) (Some (LF :: str "}")) None None) ].
Proof. repeat split. Qed.

(** C2 as stated fails: the diagnostics are not the brace diagnostic
    alone. *)
Lemma scenario_B_not_one_diagnostic :
  ~ (analyze scenario_B = [err_braces] /\
     exists f, suggest_fixes scenario_B (analyze scenario_B) = [f] /\
       fix_edit f =
         mkEdit (str "insert") (Some 3%Z) (Some (LF :: str "}")) None None).
Proof.
  intros [H _]. vm_compute in H. discriminate H.
Qed.

End Detector.

(** ** The edit applier *)

Module Applier.
Import JS Regex Mock App Words Spec JSFacts Detector.

Lemma lineIndex_le lines e : (lineIndex lines e <= List.length lines)%nat.
Proof. unfold lineIndex. lia. Qed.

Lemma length_splice {A} (l items : list A) i :
  List.length (splice l i items) = (List.length l + List.length items)%nat.
Proof.
  unfold splice. rewrite !length_app.
  rewrite <- (firstn_skipn i l) at 3. rewrite length_app. lia.
Qed.

Lemma count_in_lines_splice c l items i :
  count_in_lines c (splice l i items) =
  (count_in_lines c l + count_in_lines c items)%nat.
Proof.
  unfold splice. rewrite !count_in_lines_app.
  rewrite <- (firstn_skipn i l) at 3. rewrite count_in_lines_app. lia.
Qed.

Lemma length_array_set l i v :
  List.length (array_set l i v) = Nat.max (List.length l) (S i).
Proof.
  revert i. induction l as [|x l IH]; intros i.
  - induction i as [|i IHi]; simpl in *; [reflexivity | now rewrite IHi].
  - destruct i; simpl; [lia | now rewrite IH].
Qed.

Lemma count_in_lines_holes c i v :
  count_in_lines c (array_set [] i v) = count_char c v.
Proof.
  unfold count_in_lines. induction i as [|i IH]; simpl.
  - lia.
  - now rewrite IH.
Qed.

Lemma count_in_lines_array_set c l i v :
  (count_in_lines c (array_set l i v) + count_char c (nth i l [])
   = count_in_lines c l + count_char c v)%nat.
Proof.
  revert i. induction l as [|x l IH]; intros i.
  - rewrite count_in_lines_holes.
    destruct i; unfold count_in_lines; simpl; rewrite count_char_nil; lia.
  - destruct i; unfold count_in_lines in *; simpl; [lia|].
    specialize (IH i). lia.
Qed.

Lemma count_LF_nth_split_lines s i :
  count_char LF (nth i (split_lines s) []) = 0%nat.
Proof.
  pose proof (split_lines_no_LF s) as H. rewrite Forall_forall in H.
  destruct (nth_in_or_default i (split_lines s) []) as [Hin | ->].
  - now apply H.
  - reflexivity.
Qed.

Lemma edited_lines_not_nil code e : edited_lines code e <> [].
Proof.
  pose proof (split_lines_not_nil code) as Hnn.
  assert (Hlen : forall l : list jsstring,
             (0 < List.length l)%nat -> l <> []).
  { intros [|? ?]; simpl; [lia | discriminate]. }
  assert (H0 : (0 < List.length (split_lines code))%nat).
  { destruct (split_lines code); simpl; [contradiction | lia]. }
  unfold edited_lines. cbv zeta.
  destruct (str_eqb (edit_type e) (str "insert")).
  - apply Hlen. rewrite length_splice. lia.
  - destruct (str_eqb (edit_type e) (str "replace")); [|assumption].
    destruct (edit_line e); [|assumption].
    apply Hlen. rewrite length_array_set. lia.
Qed.

Lemma line_count_newCode code e :
  line_count (newCode code e) =
  (List.length (edited_lines code e)
   + count_in_lines LF (edited_lines code e))%nat.
Proof.
  unfold line_count, newCode. apply line_count_join, edited_lines_not_nil.
Qed.

(** An insert adds one line and one more for each line feed of its
    content, wherever it is made. *)
Lemma line_count_insert code e :
  edit_type e = str "insert" ->
  line_count (newCode code e) =
  (line_count code + count_char LF (edit_text e) + 1)%nat.
Proof.
  intros Ht. rewrite line_count_newCode. unfold edited_lines, edit_text.
  cbv zeta. rewrite Ht.
  change (str_eqb (str "insert") (str "insert")) with true.
  cbv iota. rewrite length_splice, count_in_lines_splice.
  unfold line_count. rewrite !count_LF_split_lines, !length_split_lines. lia.
Qed.

(** C4, as the code has it.  For every source buffer and every edit,
    applying the edit gives a buffer: its number of lines is not less than
    before, and more by at most one plus the number of line feeds in the
    text the edit puts in.  For an insert, at whatever line number (0, or
    past the end), it is more by exactly that. *)
Theorem line_count_after_edit (code : jsstring) (e : Edit) :
  (line_count code <= line_count (newCode code e)
   <= line_count code + count_char LF (edit_text e) + 1)%nat /\
  (edit_type e = str "insert" ->
   line_count (newCode code e) =
   (line_count code + count_char LF (edit_text e) + 1)%nat).
Proof.
  split; [|apply line_count_insert].
  destruct (str_eqb (edit_type e) (str "insert")) eqn:Ei.
  - apply str_eqb_eq in Ei. rewrite (line_count_insert code e Ei). lia.
  - rewrite line_count_newCode. unfold edited_lines, edit_text.
    cbv zeta. rewrite Ei.
    destruct (str_eqb (edit_type e) (str "replace")).
    + destruct (edit_line e) as [z|] eqn:El.
      * rewrite length_array_set.
        match goal with
        | |- context [array_set ?l ?i ?v] =>
            pose proof (count_in_lines_array_set LF l i v) as Hc;
            pose proof (lineIndex_le (split_lines code) e) as Hi
        end.
        rewrite count_LF_nth_split_lines, count_LF_split_lines in Hc.
        unfold line_count. lia.
      * rewrite count_LF_split_lines. unfold line_count. lia.
    + rewrite count_LF_split_lines. unfold line_count. lia.
Qed.

Lemma line_count_after_edit_witness :
  edit_type insert_x = str "insert" /\
  line_count (newCode one_line insert_x) =
  (line_count one_line + count_char LF (edit_text insert_x) + 1)%nat.
Proof.
  split; [reflexivity|].
  apply (proj2 (line_count_after_edit one_line insert_x)). reflexivity.
Defined.

(** C4 as stated fails: an insert of a content without a line feed, here
    at line 0 of a one-line buffer, adds a line. *)
Lemma insert_adds_a_line :
  line_count (newCode one_line insert_x) = 2%nat /\
  ~ (line_count (newCode one_line insert_x)
     <= line_count one_line
        + count_char LF (content_or_empty (edit_content insert_x)))%nat.
Proof. split; [reflexivity | vm_compute; lia]. Qed.

(** C5: the code at a replace one line past the end.  The index is cut
    down to the length of the buffer, not to the last line: no line is
    overwritten, the replacement becomes a new last line. *)
Theorem replace_past_end_appends :
  lineIndex (split_lines one_line) replace_past_end = 1%nat /\
  newCode one_line replace_past_end = str "a" ++ [LF] ++ str "b" /\
  line_count one_line = 1%nat /\
  line_count (newCode one_line replace_past_end) = 2%nat.
Proof. repeat split. Qed.

(** Within the buffer, a replace overwrites its line and no other. *)
Lemma nth_error_array_set l i v j :
  (i < List.length l)%nat ->
  nth_error (array_set l i v) j =
  if Nat.eqb j i then Some v else nth_error l j.
Proof.
  revert i j. induction l as [|x l IH]; intros i j Hi; simpl in Hi; [lia|].
  destruct i, j; simpl; try reflexivity. apply IH. lia.
Qed.

Lemma replace_in_range code e n :
  edit_type e = str "replace" -> edit_line e = Some n ->
  (1 <= n <= Z.of_nat (line_count code))%Z ->
  List.length (edited_lines code e) = line_count code /\
  forall j, nth_error (edited_lines code e) j =
            if Nat.eqb j (Z.to_nat (n - 1)) then Some (edit_text e)
            else nth_error (split_lines code) j.
Proof.
  intros Ht Hl Hn. unfold edited_lines, edit_text, line_count in *.
  cbv zeta. rewrite Ht, Hl.
  change (str_eqb (str "replace") (str "insert")) with false.
  change (str_eqb (str "replace") (str "replace")) with true. cbv iota.
  assert (Hi : lineIndex (split_lines code) e = Z.to_nat (n - 1)).
  { unfold lineIndex, line_or_1. rewrite Hl.
    destruct (Z.eqb_spec n 0); lia. }
  rewrite Hi. split.
  - rewrite length_array_set. lia.
  - intros j. apply nth_error_array_set. lia.
Qed.

(** *** The brace fix *)
Lemma count_char_LF_other c : c <> LF -> count_char c [LF] = 0%nat.
Proof.
  intros H. rewrite count_char_cons, count_char_nil.
  destruct (char_eqb c LF) eqn:E; [|reflexivity].
  now apply char_eqb_eq in E.
Qed.

(** An insert adds the characters of its content, and no other, but for
    the line separators. *)
Lemma count_char_insert c code e :
  edit_type e = str "insert" -> c <> LF -> c <> CR ->
  count_char c (newCode code e) =
  (count_char c code + count_char c (content_or_empty (edit_content e)))%nat.
Proof.
  intros Ht Hlf Hcr. unfold newCode, edited_lines. cbv zeta.
  rewrite Ht. change (str_eqb (str "insert") (str "insert")) with true.
  cbv iota. rewrite count_char_join, (count_char_LF_other c Hlf).
  rewrite count_in_lines_splice, !count_in_split_lines by assumption. lia.
Qed.

Lemma generateFixes_add_brace code errors :
  In err_braces errors ->
  (count_close code < count_open code)%nat ->
  In (fix_add_brace (split_lines code)) (generateFixes code errors).
Proof.
  intros Hin Hlt. unfold generateFixes. cbv zeta.
  assert (Hs : some (fun e => test re_msg_brace (err_message e)) errors
               = true).
  { apply existsb_exists. exists err_braces. now split. }
  apply Nat.ltb_lt in Hlt. rewrite Hs, Hlt.
  repeat match goal with
  | |- context [if ?b then _ else _] => destruct b
  | |- context [match ?o with Some _ => _ | None => _ end] =>
      destruct o as [[? ?]|]
  end; unfold push; rewrite ?in_app_iff; simpl; auto.
Qed.

Lemma brace_errors_in code :
  count_open code <> count_close code -> In err_braces (analyze code).
Proof.
  intros H. rewrite analyze_eq. unfold detected, brace_errors.
  apply Nat.eqb_neq in H. rewrite H. rewrite !in_app_iff. simpl. auto.
Qed.

(** C1, as the code has it.  For every source buffer with exactly one
    opening brace more than closing braces, [suggest_fixes] proposes the
    insertion of a closing brace after the last line, and once that edit
    is applied, [analyze] on the new buffer emits no [UnmatchedBraces]
    diagnostic. *)
Theorem brace_fix_settles_one_missing_brace
    (code : jsstring) (result : option CompileResponse)
    (fixes : option (list Fix)) :
  count_open code = S (count_close code) ->
  In (fix_add_brace (split_lines code)) (suggest_fixes code (analyze code)) /\
  fix_edit (fix_add_brace (split_lines code)) =
    mkEdit (str "insert") (Some (Z.of_nat (line_count code) + 1)%Z)
      (Some (LF :: str "}")) None None /\
  filter (has_kind UnmatchedBraces)
    (analyze (st_code (applyFix (mkAppState code result fixes)
                         (fix_add_brace (split_lines code)))))
  = [].
Proof.
  intros H. split; [|split].
  - apply generateFixes_add_brace; [|lia]. apply brace_errors_in. lia.
  - reflexivity.
  - rewrite braces_of_analyze. unfold brace_errors. simpl st_code.
    unfold count_open, count_close in *.
    rewrite !count_char_insert by (reflexivity || discriminate).
    rewrite H. simpl content_or_empty.
    change (count_char 123 (LF :: str "}")) with 0%nat.
    change (count_char 125 (LF :: str "}")) with 1%nat.
    replace (Nat.eqb _ _) with true; [reflexivity|].
    symmetry. apply Nat.eqb_eq. lia.
Qed.

Lemma brace_fix_settles_one_missing_brace_witness :
  count_open one_open = S (count_close one_open) /\
  filter (has_kind UnmatchedBraces)
    (analyze (st_code (applyFix (mkAppState one_open None None)
                         (fix_add_brace (split_lines one_open)))))
  = [].
Proof.
  split; [reflexivity|].
  apply (brace_fix_settles_one_missing_brace one_open None None).
  reflexivity.
Defined.

(** C1 as stated fails: with two braces open, one inserted closing brace
    leaves the braces unmatched. *)
Lemma brace_fix_leaves_two_open_unmatched :
  (count_close two_open < count_open two_open)%nat /\
  In (fix_add_brace (split_lines two_open))
     (suggest_fixes two_open (analyze two_open)) /\
  filter (has_kind UnmatchedBraces)
    (analyze (st_code (applyFix (mkAppState two_open None None)
                         (fix_add_brace (split_lines two_open)))))
  = [err_braces].
Proof.
  split; [vm_compute; lia|]. split; [vm_compute; auto | reflexivity].
Qed.

End Applier.

(** ** The fix synthesizer *)

Module Synthesizer.
Import JS Regex Mock App Words Spec JSFacts Detector.

(** C7: the code on a buffer with one kind of diagnostic.  The only
    diagnostic is an extra semicolon, and two edits come out: the message
    of the extra semicolon also passes the test of the missing-semicolon
    branch, which finds a [printf] line to complete. *)
Theorem extra_semicolon_triggers_two_fixes :
  analyze nbsp_buffer = [err_extra_semicolon 1] /\
  test re_msg_semicolon (err_message (err_extra_semicolon 1)) = true /\
  suggest_fixes nbsp_buffer (analyze nbsp_buffer) =
    [ fix_missing_semicolon 2 (str "printf(x)" ++ [NBSP]);
      fix_extra_semicolon 1 (str ";;") ].
Proof. repeat split. Qed.

(** Case analysis on every test and every loop result of a branch. *)
Ltac branches :=
  repeat match goal with
  | |- context [if ?b then _ else _] => destruct b
  | |- context [match ?o with Some _ => _ | None => _ end] =>
      destruct o as [[? ?]|]
  end.

(** What holds of every call: the fixes are those of the four branches, in
    the order of the branches, and each branch adds at most one. *)
Lemma generateFixes_eq code errors :
  generateFixes code errors =
  stdio_fix errors ++ semicolon_fix code errors ++ brace_fix code errors
  ++ extra_fix code errors.
Proof.
  unfold generateFixes, stdio_fix, semicolon_fix, brace_fix, extra_fix.
  cbv zeta. branches; reflexivity.
Qed.

Lemma branch_at_most_one code errors :
  (List.length (stdio_fix errors) <= 1 /\
   List.length (semicolon_fix code errors) <= 1 /\
   List.length (brace_fix code errors) <= 1 /\
   List.length (extra_fix code errors) <= 1)%nat.
Proof.
  unfold stdio_fix, semicolon_fix, brace_fix, extra_fix.
  repeat split; branches; simpl; lia.
Qed.

Lemma generateFixes_at_most_four code errors :
  (List.length (generateFixes code errors) <= 4)%nat.
Proof.
  rewrite generateFixes_eq, !length_app.
  pose proof (branch_at_most_one code errors). lia.
Qed.

(** The missing-semicolon branch is taken for an extra-semicolon
    diagnostic as well. *)
Lemma semicolon_branch_on_extra_semicolon i :
  test re_msg_semicolon (err_message (err_extra_semicolon i)) = true.
Proof. reflexivity. Qed.

Lemma generateFixes_nil code : generateFixes code [] = [].
Proof. reflexivity. Qed.

End Synthesizer.

(** ** More on the detector *)

Module Checks.
Import JS Regex Mock App Words Spec Loop JSFacts LinesFacts RegexFacts.
Import Detector.

#[local] Hint Resolve sound_seq complete_seq sound_star complete_star
  sound_lit complete_lit sound_chr complete_chr sound_bol_m complete_bol_m
  sound_eol_m complete_eol_m sound_eoi complete_eoi sound_cls complete_cls
  sound_alt complete_alt sound_lit_i complete_lit_i : regex.

Lemma sound_printf : sound re_printf D_printf.
Proof. unfold re_printf, D_printf. auto with regex. Qed.

Lemma complete_printf : complete re_printf D_printf.
Proof. unfold re_printf, D_printf. auto with regex. Qed.

Lemma sound_stdio_include : sound re_stdio_include D_stdio_include.
Proof. unfold re_stdio_include, D_stdio_include. auto 10 with regex. Qed.

Lemma complete_stdio_include : complete re_stdio_include D_stdio_include.
Proof. unfold re_stdio_include, D_stdio_include. auto 10 with regex. Qed.

Lemma test_printf_iff code : test re_printf code = true <-> printf_call code.
Proof.
  rewrite (test_iff _ _ code sound_printf complete_printf).
  unfold found, D_printf, printf_call. split.
  - intros (u & w & a & -> & H).
    destruct H as (w1 & r1 & -> & -> & ws & r2 & -> & Hws & ->).
    exists u, ws, a. split; [|assumption]. now rewrite <- !app_assoc.
  - intros (u & ws & v & -> & Hws).
    exists u, (str "printf" ++ ws ++ [40]), v.
    split; [now rewrite <- !app_assoc|].
    exists (str "printf"), (ws ++ [40]). split; [reflexivity|].
    split; [reflexivity|]. exists ws, [40]. now repeat split.
Qed.

Lemma test_stdio_include_iff code :
  test re_stdio_include code = true <-> stdio_include code.
Proof.
  rewrite (test_iff _ _ code sound_stdio_include complete_stdio_include).
  unfold found, D_stdio_include, stdio_include. split.
  - intros (u & w & a & -> & H).
    destruct H as (w1 & r1 & -> & -> & H).
    destruct H as (ws1 & r2 & -> & Hws1 & H).
    destruct H as (w3 & r3 & -> & -> & H).
    destruct H as (ws2 & r4 & -> & Hws2 & H).
    destruct H as (w5 & r5 & -> & -> & H).
    destruct H as (w6 & r6 & -> & (c & -> & Hc) & ->).
    exists u, ws1, ws2, c, a. repeat split; try assumption.
    now rewrite <- !app_assoc.
  - intros (u & ws1 & ws2 & c & v & -> & Hws1 & Hws2 & Hc).
    exists u, ([35] ++ ws1 ++ str "include" ++ ws2 ++ str "<stdio" ++ [c]
               ++ str "h>"), v.
    split; [now rewrite <- !app_assoc|].
    exists [35], (ws1 ++ str "include" ++ ws2 ++ str "<stdio" ++ [c]
                  ++ str "h>").
    split; [reflexivity|]. split; [reflexivity|].
    exists ws1, (str "include" ++ ws2 ++ str "<stdio" ++ [c] ++ str "h>").
    split; [reflexivity|]. split; [assumption|].
    exists (str "include"), (ws2 ++ str "<stdio" ++ [c] ++ str "h>").
    split; [reflexivity|]. split; [reflexivity|].
    exists ws2, (str "<stdio" ++ [c] ++ str "h>").
    split; [reflexivity|]. split; [assumption|].
    exists (str "<stdio"), ([c] ++ str "h>").
    split; [reflexivity|]. split; [reflexivity|].
    exists [c], (str "h>"). split; [reflexivity|].
    split; [now exists c | reflexivity].
Qed.

Lemma includes_of_analyze code :
  filter (has_kind MissingInclude) (analyze code) = stdio_errors code.
Proof. now rewrite analyze_eq, filter_detected. Qed.

(** X1. The missing-include check emits its diagnostic exactly when the
    buffer has a [printf] call and no include of the standard I/O header, and
    then once. *)
Theorem missing_include_iff (code : jsstring) :
  filter (has_kind MissingInclude) (analyze code) =
    (if test re_printf code && negb (test re_stdio_include code)
     then [err_stdio] else []) /\
  (test re_printf code = true <-> printf_call code) /\
  (test re_stdio_include code = true <-> stdio_include code).
Proof.
  split; [apply includes_of_analyze|].
  split; [apply test_printf_iff | apply test_stdio_include_iff].
Qed.

(** X2. The diagnostics of a run come in the order of the checks: the
    missing include, the missing semicolon, the extra semicolons by rising
    line number, the unmatched braces; and there is nothing else. *)
Theorem diagnostics_in_check_order (code : jsstring) :
  analyze code =
    filter (has_kind MissingInclude) (analyze code)
    ++ filter (has_kind MissingSemicolon) (analyze code)
    ++ filter (has_kind ExtraSemicolon) (analyze code)
    ++ filter (has_kind UnmatchedBraces) (analyze code) /\
  exists ls,
    filter (has_kind ExtraSemicolon) (analyze code) =
      List.map err_extra_semicolon ls /\
    StronglySorted lt ls.
Proof.
  split.
  - rewrite includes_of_analyze, semicolons_of_analyze, extras_of_analyze,
      braces_of_analyze. apply analyze_eq.
  - exists (offending_lines (split_lines code)). split.
    + rewrite extras_of_analyze.
      apply (extra_errors_offending [] (split_lines code)).
    + apply StronglySorted_filter, StronglySorted_seq.
Qed.

Lemma extra_errors_nil lines i :
  extra_errors lines i = [] <->
  forall l, In l lines -> test re_semi_semi l = false.
Proof.
  revert i. induction lines as [|l ls IH]; intros i; simpl.
  - split; [intros _ ? [] | reflexivity].
  - destruct (test re_semi_semi l) eqn:E; simpl.
    + split; [discriminate|]. intros H.
      specialize (H l (or_introl eq_refl)). congruence.
    + rewrite IH. split.
      * intros H l' [<-|Hl']; [assumption | now apply H].
      * intros H l' Hl'. apply H. now right.
Qed.

Lemma status_success_iff code :
  status (compile_handler code) = str "success" <-> detected code = [].
Proof.
  rewrite compile_handler_eq. destruct (detected code); simpl.
  - split; reflexivity.
  - split; intros H; [vm_compute in H|]; discriminate H.
Qed.

Lemma app_nil_iff {A} (l l' : list A) : l ++ l' = [] <-> l = [] /\ l' = [].
Proof.
  split; [apply app_eq_nil | intros [-> ->]; reflexivity].
Qed.

Lemma stdio_errors_nil code :
  stdio_errors code = [] <-> (printf_call code -> stdio_include code).
Proof.
  unfold stdio_errors.
  rewrite <- test_printf_iff, <- test_stdio_include_iff.
  destruct (test re_printf code), (test re_stdio_include code); simpl;
    split; try reflexivity; try discriminate; try congruence.
  intros H. specialize (H eq_refl). discriminate H.
Qed.

Lemma semicolon_errors_nil code :
  semicolon_errors code = [] <-> ~ unterminated_printf code.
Proof.
  unfold semicolon_errors. rewrite <- test_printf_line_iff.
  destruct (test re_printf_line code); split; try reflexivity;
    try discriminate; congruence.
Qed.

Lemma extra_errors_nil_iff lines i :
  extra_errors lines i = [] <->
  forall l, In l lines -> ~ adjacent_semicolons l.
Proof.
  rewrite extra_errors_nil. split; intros H l Hl.
  - rewrite <- test_semi_semi_iff. rewrite (H l Hl). discriminate.
  - specialize (H l Hl). rewrite <- test_semi_semi_iff in H.
    now destruct (test re_semi_semi l).
Qed.

Lemma brace_errors_nil code :
  brace_errors code = [] <-> count_open code = count_close code.
Proof.
  unfold brace_errors. rewrite <- Nat.eqb_eq.
  destruct (Nat.eqb _ _); split; try reflexivity; discriminate.
Qed.

Lemma no_offending_line_iff code :
  (forall l, In l (split_lines code) -> ~ adjacent_semicolons l) <->
  (forall i l, line_at code i l -> ~ adjacent_semicolons l).
Proof.
  split.
  - intros H i l Hl. apply H. apply line_at_iff in Hl.
    now apply nth_error_In in Hl.
  - intros H l Hl. apply In_nth_error in Hl. destruct Hl as (i & Hi).
    apply (H i). now apply line_at_iff.
Qed.

(** X3. The [/compile] response says [success] exactly when no check
    fires: every [printf] call comes with the include, no [printf] is left
    unterminated, no line of the buffer has two semicolons in a row, and
    the opening brace occurs in the buffer as often as the closing one. *)
Theorem success_iff_no_check_fires (code : jsstring) :
  status (compile_handler code) = str "success" <->
  (printf_call code -> stdio_include code) /\
  ~ unterminated_printf code /\
  (forall i l, line_at code i l -> ~ adjacent_semicolons l) /\
  occurrences 123 code = occurrences 125 code.
Proof.
  rewrite status_success_iff. unfold detected. rewrite !app_nil_iff.
  rewrite stdio_errors_nil, semicolon_errors_nil, extra_errors_nil_iff,
    brace_errors_nil, no_offending_line_iff.
  unfold count_open, count_close. rewrite !count_char_occurrences.
  reflexivity.
Qed.

(** X4. The second test of the missing-semicolon check never stops the
    diagnostic: the text the pattern has matched ends in a closing
    parenthesis and blanks, so it never ends in a semicolon and white
    space. *)
Theorem semicolon_guard_never_blocks (code lineText : jsstring) :
  match_ re_printf_line code = Some lineText ->
  test re_semi_end lineText = false.
Proof. apply lineText_no_semi_end. Qed.

Lemma semicolon_guard_never_blocks_witness :
  match_ re_printf_line bare_printf = Some bare_printf /\
  test re_semi_end bare_printf = false.
Proof.
  split; [reflexivity|].
  apply (semicolon_guard_never_blocks bare_printf bare_printf). reflexivity.
Defined.

Lemma unterminated_is_call code : unterminated_printf code -> printf_call code.
Proof.
  intros (pre & l & ws & body & blanks & post & -> & _ & _ & Hws & _).
  exists (pre ++ l), ws, (body ++ [41] ++ blanks ++ post).
  split; [now rewrite <- !app_assoc | assumption].
Qed.

(** X5. A missing-semicolon diagnostic comes with the missing-include
    diagnostic, unless the buffer includes the header: an unterminated
    [printf] is a [printf] call. *)
Theorem missing_semicolon_brings_missing_include (code : jsstring) :
  In err_missing_semicolon (analyze code) ->
  In err_stdio (analyze code) \/ stdio_include code.
Proof.
  intros H.
  assert (Hm : In err_missing_semicolon (semicolon_errors code)).
  { rewrite <- semicolons_of_analyze. apply filter_In. now split. }
  unfold semicolon_errors in Hm.
  destruct (test re_printf_line code) eqn:E; [clear Hm | destruct Hm].
  apply test_printf_line_iff, unterminated_is_call, test_printf_iff in E.
  destruct (test re_stdio_include code) eqn:Ei.
  - right. now apply test_stdio_include_iff.
  - left. rewrite analyze_eq. unfold detected, stdio_errors.
    rewrite E, Ei. simpl. now left.
Qed.

Lemma missing_semicolon_brings_missing_include_witness :
  In err_missing_semicolon (analyze bare_printf) /\
  (In err_stdio (analyze bare_printf) \/ stdio_include bare_printf).
Proof.
  assert (H : In err_missing_semicolon (analyze bare_printf)).
  { vm_compute. auto. }
  split; [exact H|].
  apply (missing_semicolon_brings_missing_include bare_printf H).
Defined.

End Checks.

(** ** More on the edit applier *)

Module Edits.
Import JS Regex Mock App Words Spec Loop JSFacts LinesFacts RegexFacts.
Import Detector.
Import Applier.

Lemma join_prepend c ls :
  ls <> [] -> join [LF] (prepend c ls) = c :: join [LF] ls.
Proof.
  destruct ls as [|l [|l' ls]]; [contradiction | reflexivity | reflexivity].
Qed.

Lemma join_app sep (ls ms : list jsstring) :
  ls <> [] -> ms <> [] ->
  join sep (ls ++ ms) = join sep ls ++ sep ++ join sep ms.
Proof.
  intros Hl Hm. induction ls as [|l ls IH]; [contradiction|].
  destruct ls as [|l' ls].
  - simpl app. now rewrite join_cons.
  - change ((l :: l' :: ls) ++ ms) with (l :: (l' :: ls) ++ ms).
    rewrite !join_cons by (try discriminate; destruct ms; discriminate).
    rewrite IH by discriminate. now rewrite <- !app_assoc.
Qed.

Lemma join_split_lines s : join [LF] (split_lines s) = normalize_newlines s.
Proof.
  induction s as [|c s IH]; [reflexivity|].
  cbn [split_lines normalize_newlines].
  destruct (c =? LF) eqn:Elf.
  - apply N.eqb_eq in Elf. subst c. change (LF =? CR) with false.
    cbn [andb]. rewrite join_cons by apply split_lines_not_nil.
    now rewrite IH.
  - destruct ((c =? CR) && _); [assumption|].
    fold (prepend c (split_lines s)).
    rewrite join_prepend by apply split_lines_not_nil. now rewrite IH.
Qed.

Lemma length_normalize_newlines s :
  (List.length (normalize_newlines s) <= List.length s)%nat.
Proof.
  induction s as [|c s IH]; simpl; [lia|].
  destruct ((c =? CR) && _); simpl; lia.
Qed.

Lemma normalize_crlf_free s : normalize_newlines s = s <-> crlf_free s.
Proof.
  induction s as [|c s IH]; simpl.
  - split; [|reflexivity]. intros _ [|? u] v H; discriminate H.
  - destruct ((c =? CR) && _) eqn:E.
    + split.
      * intros H. pose proof (length_normalize_newlines s) as Hl.
        rewrite H in Hl. simpl in Hl. lia.
      * intros H. exfalso. apply andb_true_iff in E.
        destruct E as [Ec Ed]. apply N.eqb_eq in Ec. subst c.
        destruct s as [|d s]; [discriminate|].
        apply N.eqb_eq in Ed. subst d. now apply (H [] s).
    + split.
      * intros H. injection H as H. apply IH in H.
        intros [|c' u] v Huv.
        -- injection Huv as -> ->. now rewrite !N.eqb_refl in E.
        -- injection Huv as -> ->. now apply (H u v).
      * intros H. f_equal. apply IH. intros u v ->.
        now apply (H (c :: u) v).
Qed.

(** X6. Whatever the edit, [applyFix] splits the buffer and joins it again:
    that alone rewrites each carriage return and line feed in a row into a
    line feed and changes no other character; a buffer without such a pair
    comes back as it was. *)
Theorem rejoin_normalizes_newlines (s : jsstring) :
  join [LF] (split_lines s) = normalize_newlines s /\
  (normalize_newlines s = s <-> crlf_free s).
Proof.
  split; [apply join_split_lines | apply normalize_crlf_free].
Qed.

(** *** Splitting what was joined *)

Lemma split_lines_join ls :
  ls <> [] ->
  Forall (fun l => count_char LF l = 0%nat) ls ->
  Forall no_CR_at_end (removelast ls) ->
  split_lines (join [LF] ls) = ls.
Proof.
  induction ls as [|l ls IH]; intros Hnn Hlf Hcr; [contradiction|].
  inversion Hlf as [|? ? Hl Hls]; subst.
  destruct ls as [|l' ls].
  - now apply split_lines_line.
  - rewrite join_cons by discriminate.
    change (removelast (l :: l' :: ls)) with (l :: removelast (l' :: ls))
      in Hcr.
    inversion Hcr as [|? ? Hc Hcs]; subst.
    change ([LF] ++ join [LF] (l' :: ls)) with (LF :: join [LF] (l' :: ls)).
    rewrite split_lines_first by assumption.
    now rewrite IH by (try discriminate; assumption).
Qed.

(** X7. Splitting the joined lines gives the lines back, when no line has
    a line feed in it and no line but the last ends in a carriage return. *)
Theorem split_of_joined_lines (ls : list jsstring) :
  ls <> [] ->
  Forall (fun l => count_char LF l = 0%nat) ls ->
  Forall no_CR_at_end (removelast ls) ->
  split_lines (join [LF] ls) = ls.
Proof. apply split_lines_join. Qed.

Lemma split_of_joined_lines_witness :
  split_lines (join [LF] [str "a"; []; str "}" ++ [CR]]) =
  [str "a"; []; str "}" ++ [CR]].
Proof.
  apply split_of_joined_lines; [discriminate | |].
  - repeat constructor.
  - repeat constructor; intros [|? [|? ?]] H; discriminate H.
Defined.

(** *** Where an insert goes *)

Lemma lineIndex_front lines e :
  (forall n, edit_line e = Some n -> (n <= 1)%Z) -> lineIndex lines e = 0%nat.
Proof.
  intros H. unfold lineIndex, line_or_1.
  destruct (edit_line e) as [n|]; [|lia].
  specialize (H n eq_refl). destruct (Z.eqb_spec n 0); lia.
Qed.

Lemma lineIndex_end lines e n :
  edit_line e = Some n -> (Z.of_nat (List.length lines) < n)%Z ->
  lineIndex lines e = List.length lines.
Proof.
  intros H Hn. unfold lineIndex, line_or_1. rewrite H.
  destruct (Z.eqb_spec n 0); lia.
Qed.

Lemma newCode_insert code e :
  edit_type e = str "insert" ->
  newCode code e =
  join [LF] (splice (split_lines code) (lineIndex (split_lines code) e)
               (split_lines (content_or_empty (edit_content e)))).
Proof.
  intros Ht. unfold newCode, edited_lines. cbv zeta. now rewrite Ht.
Qed.

Lemma newCode_insert_front code e :
  edit_type e = str "insert" ->
  (forall n, edit_line e = Some n -> (n <= 1)%Z) ->
  newCode code e =
  normalize_newlines (content_or_empty (edit_content e)) ++ [LF]
  ++ normalize_newlines code.
Proof.
  intros Ht Hn. rewrite (newCode_insert code e Ht).
  rewrite (lineIndex_front _ e Hn). unfold splice. simpl firstn.
  simpl skipn. simpl app.
  rewrite join_app by apply split_lines_not_nil.
  now rewrite !join_split_lines.
Qed.

(** X8. An insert whose line number is 1 or less (0, a negative number) or
    is missing puts the content before the first line: the new buffer is
    the content, a line feed and the old buffer, each re-joined. *)
Theorem insert_at_or_before_line_1 (code : jsstring) (e : Edit) :
  edit_type e = str "insert" ->
  (forall n, edit_line e = Some n -> (n <= 1)%Z) ->
  newCode code e =
  normalize_newlines (content_or_empty (edit_content e)) ++ [LF]
  ++ normalize_newlines code.
Proof. apply newCode_insert_front. Qed.

Lemma insert_at_or_before_line_1_witness :
  newCode one_line insert_x = str "x" ++ [LF] ++ str "a".
Proof.
  apply (insert_at_or_before_line_1 one_line insert_x); [reflexivity|].
  intros n H. injection H as <-. lia.
Defined.

(** X9. An insert whose line number is past the last line, by one or by
    more, puts the content after the last line. *)
Theorem insert_past_the_end (code : jsstring) (e : Edit) (n : Z) :
  edit_type e = str "insert" ->
  edit_line e = Some n -> (Z.of_nat (line_count code) < n)%Z ->
  newCode code e =
  normalize_newlines code ++ [LF]
  ++ normalize_newlines (content_or_empty (edit_content e)).
Proof.
  intros Ht Hl Hn. rewrite (newCode_insert code e Ht).
  rewrite (lineIndex_end _ e n Hl Hn). unfold splice.
  rewrite firstn_all, skipn_all, app_nil_r.
  rewrite join_app by apply split_lines_not_nil.
  now rewrite !join_split_lines.
Qed.

Lemma insert_past_the_end_witness :
  newCode one_line insert_far = str "a" ++ [LF] ++ str "x".
Proof.
  rewrite (insert_past_the_end one_line insert_far 7 eq_refl eq_refl);
    [reflexivity | vm_compute; reflexivity].
Defined.

(** X10. Wherever an insert lands, the new buffer has the characters of
    the old buffer and those of the content, line separators apart. *)
Theorem insert_adds_its_content (code : jsstring) (e : Edit) (c : char) :
  edit_type e = str "insert" -> c <> LF -> c <> CR ->
  count_char c (newCode code e) =
  (count_char c code + count_char c (content_or_empty (edit_content e)))%nat.
Proof. apply count_char_insert. Qed.

Lemma insert_adds_its_content_witness :
  count_open (newCode two_lines insert_braces) =
  (count_open two_lines
   + count_open (content_or_empty (edit_content insert_braces)))%nat.
Proof.
  apply (insert_adds_its_content two_lines insert_braces 123);
    [reflexivity | discriminate | discriminate].
Defined.

(** X11. An edit that is neither an insert nor a replace, and a replace
    without a line number, leave the lines alone: the buffer is only
    re-joined. *)
Theorem unknown_edit_only_rejoins (code : jsstring) (e : Edit) :
  edit_type e <> str "insert" ->
  (edit_type e = str "replace" -> edit_line e = None) ->
  newCode code e = normalize_newlines code.
Proof.
  intros Hi Hr. unfold newCode, edited_lines. cbv zeta.
  destruct (str_eqb (edit_type e) (str "insert")) eqn:Ei.
  - apply str_eqb_eq in Ei. contradiction.
  - destruct (str_eqb (edit_type e) (str "replace")) eqn:Er.
    + apply str_eqb_eq in Er. rewrite (Hr Er). apply join_split_lines.
    + apply join_split_lines.
Qed.

Lemma unknown_edit_only_rejoins_witness :
  newCode two_lines delete_first = two_lines.
Proof.
  rewrite (unknown_edit_only_rejoins two_lines delete_first);
    [reflexivity | discriminate | discriminate].
Defined.

(** *** What a replace does *)

Lemma array_set_end l v : array_set l (List.length l) v = l ++ [v].
Proof. induction l as [|x l IH]; simpl; [reflexivity | now rewrite IH]. Qed.

Lemma newCode_replace code e n :
  edit_type e = str "replace" -> edit_line e = Some n ->
  newCode code e =
  join [LF] (array_set (split_lines code) (lineIndex (split_lines code) e)
               (edit_text e)).
Proof.
  intros Ht Hl. unfold newCode, edited_lines, edit_text. cbv zeta.
  rewrite Ht, Hl. reflexivity.
Qed.

(** X12. A replace whose line number is past the last line overwrites
    nothing: its text becomes a new last line. *)
Theorem replace_past_the_end (code : jsstring) (e : Edit) (n : Z) :
  edit_type e = str "replace" ->
  edit_line e = Some n -> (Z.of_nat (line_count code) < n)%Z ->
  newCode code e = normalize_newlines code ++ [LF] ++ edit_text e.
Proof.
  intros Ht Hl Hn. rewrite (newCode_replace code e n Ht Hl).
  rewrite (lineIndex_end _ e n Hl Hn), array_set_end.
  rewrite join_app by (try apply split_lines_not_nil; discriminate).
  now rewrite join_split_lines.
Qed.

Lemma replace_past_the_end_witness :
  newCode one_line replace_far = str "a" ++ [LF] ++ str "b".
Proof.
  rewrite (replace_past_the_end one_line replace_far 9 eq_refl eq_refl);
    [reflexivity | vm_compute; reflexivity].
Defined.

(** X13. A replace whose line number is within the buffer overwrites that
    line with its text and leaves every other line and the number of lines
    as they were. *)
Theorem replace_overwrites_one_line (code : jsstring) (e : Edit) (n : Z) :
  edit_type e = str "replace" -> edit_line e = Some n ->
  (1 <= n <= Z.of_nat (line_count code))%Z ->
  List.length (edited_lines code e) = line_count code /\
  forall j, nth_error (edited_lines code e) j =
            if Nat.eqb j (Z.to_nat (n - 1)) then Some (edit_text e)
            else nth_error (split_lines code) j.
Proof. apply replace_in_range. Qed.

Lemma replace_overwrites_one_line_witness :
  List.length (edited_lines two_lines replace_second) = 2%nat /\
  nth_error (edited_lines two_lines replace_second) 1 = Some (str "c").
Proof.
  destruct (replace_overwrites_one_line two_lines replace_second 2
              eq_refl eq_refl) as [H1 H2]; [vm_compute; split; discriminate|].
  split; [exact H1 | exact (H2 1%nat)].
Defined.

(** The characters and the lines of the buffer after a replace. *)
Lemma count_char_replace code e n c :
  edit_type e = str "replace" -> edit_line e = Some n ->
  c <> LF -> c <> CR ->
  (count_char c (newCode code e)
   + count_char c (nth (lineIndex (split_lines code) e) (split_lines code) [])
   = count_char c code + count_char c (edit_text e))%nat.
Proof.
  intros Ht Hl Hlf Hcr. rewrite (newCode_replace code e n Ht Hl).
  rewrite count_char_join, (count_char_LF_other c Hlf), Nat.mul_0_r.
  rewrite Nat.add_0_r, count_in_lines_array_set.
  now rewrite count_in_split_lines.
Qed.

Lemma line_count_replace code e n :
  edit_type e = str "replace" -> edit_line e = Some n ->
  (n <= Z.of_nat (line_count code))%Z ->
  line_count (newCode code e) =
  (line_count code + count_char LF (edit_text e))%nat.
Proof.
  intros Ht Hl Hn. rewrite line_count_newCode.
  assert (E : edited_lines code e =
              array_set (split_lines code) (lineIndex (split_lines code) e)
                (edit_text e)).
  { unfold edited_lines, edit_text. cbv zeta. now rewrite Ht, Hl. }
  rewrite E, length_array_set.
  pose proof (count_in_lines_array_set LF (split_lines code)
                (lineIndex (split_lines code) e) (edit_text e)) as Hc.
  rewrite count_LF_nth_split_lines, count_LF_split_lines in Hc.
  assert (Hi : (lineIndex (split_lines code) e < line_count code)%nat).
  { pose proof (split_lines_not_nil code) as Hnn.
    unfold lineIndex, line_or_1, line_count in *. rewrite Hl.
    destruct (split_lines code); [contradiction|]. simpl List.length in *.
    destruct (Z.eqb_spec n 0); lia. }
  unfold line_count in *. lia.
Qed.

End Edits.

(** ** More on the fix synthesizer *)

Module Fixes.
Import JS Regex Mock App Words Spec Loop JSFacts LinesFacts RegexFacts.
Import Detector.
Import Applier Synthesizer Checks Edits.

(** *** The loops that stop at the first hit *)

Lemma first_line_some p lines k i l :
  first_line p lines k = Some (i, l) ->
  (k <= i)%nat /\ nth_error lines (i - k) = Some l /\ p l = true /\
  forall j l', (j < i - k)%nat -> nth_error lines j = Some l' ->
               p l' = false.
Proof.
  revert k. induction lines as [|x ls IH]; intros k H; simpl in H;
    [discriminate|].
  destruct (p x) eqn:E.
  - injection H as <- <-. rewrite Nat.sub_diag. repeat split; auto.
    intros j l' Hj. lia.
  - apply IH in H. destruct H as (Hk & Hn & Hp & Hfirst).
    replace (i - k)%nat with (S (i - S k)) by lia.
    repeat split; [lia | assumption | assumption |].
    intros [|j] l' Hj Hl'; simpl in Hl'.
    + now injection Hl' as <-.
    + apply (Hfirst j); [lia | assumption].
Qed.

Lemma first_line_none p lines k :
  first_line p lines k = None <-> forall l, In l lines -> p l = false.
Proof.
  revert k. induction lines as [|x ls IH]; intros k; simpl.
  - split; [intros _ ? [] | reflexivity].
  - destruct (p x) eqn:E.
    + split; [discriminate|]. intros H.
      specialize (H x (or_introl eq_refl)). congruence.
    + rewrite IH. split.
      * intros H l [<-|Hl]; [assumption | now apply H].
      * intros H l Hl. apply H. now right.
Qed.

Lemma last_line_none p lines k :
  last_line p lines k = None <-> forall l, In l lines -> p l = false.
Proof.
  revert k. induction lines as [|x ls IH]; intros k; simpl.
  - split; [intros _ ? [] | reflexivity].
  - destruct (last_line p ls (S k)) as [r|] eqn:E.
    + split; [discriminate|]. intros H.
      assert (E' : last_line p ls (S k) = None).
      { apply (proj2 (IH _)). intros l Hl. apply H. now right. }
      congruence.
    + pose proof (proj1 (IH _) E) as E0. clear E. rename E0 into E.
      destruct (p x) eqn:Ex.
      * split; [discriminate|]. intros H.
        specialize (H x (or_introl eq_refl)). congruence.
      * split; [|reflexivity].
        intros _ l [<-|Hl]; [assumption | now apply E].
Qed.

Lemma last_line_some p lines k i l :
  last_line p lines k = Some (i, l) ->
  (k <= i)%nat /\ nth_error lines (i - k) = Some l /\ p l = true /\
  forall j l', (i - k < j)%nat -> nth_error lines j = Some l' ->
               p l' = false.
Proof.
  revert k. induction lines as [|x ls IH]; intros k H; simpl in H;
    [discriminate|].
  destruct (last_line p ls (S k)) as [r|] eqn:E.
  - injection H as ->. apply IH in E.
    destruct E as (Hk & Hn & Hp & Hlast).
    replace (i - k)%nat with (S (i - S k)) by lia.
    repeat split; [lia | assumption | assumption |].
    intros [|j] l' Hj Hl'; [lia|]. simpl in Hl'.
    apply (Hlast j); [lia | assumption].
  - destruct (p x) eqn:Ex; [|discriminate]. injection H as <- <-.
    rewrite Nat.sub_diag. repeat split; auto.
    intros [|j] l' Hj Hl'; [lia|]. simpl in Hl'.
    apply (proj1 (last_line_none p ls (S k)) E).
    now apply nth_error_In in Hl'.
Qed.

(** *** The tests on the messages *)

Lemma some_ext (p : Diagnostic -> bool) (f : jsstring -> bool)
    (errors errors' : list Diagnostic) :
  (forall d, p d = f (err_message d)) ->
  (forall m, In m (List.map err_message errors) <->
             In m (List.map err_message errors')) ->
  some p errors = some p errors'.
Proof.
  intros Hp H. unfold some.
  assert (E : forall es, existsb p es = existsb f (List.map err_message es)).
  { induction es as [|d es IH]; simpl; [reflexivity|]. now rewrite Hp, IH. }
  rewrite !E. apply eq_true_iff_eq. rewrite !existsb_exists.
  split; intros (m & Hm & Hf); exists m; split; try assumption;
    now apply H.
Qed.

(** X14. [generateFixes] looks at the messages of the diagnostics only, and
    only at which of them are there: neither the order of the diagnostics,
    nor their number, type or line changes the fixes. *)
Theorem generateFixes_by_messages
    (code : jsstring) (errors errors' : list Diagnostic) :
  (forall m, In m (List.map err_message errors) <->
             In m (List.map err_message errors')) ->
  generateFixes code errors = generateFixes code errors'.
Proof.
  intros H. unfold generateFixes. cbv zeta.
  rewrite (some_ext _ (test re_msg_stdio) errors errors' (fun _ => eq_refl) H).
  rewrite (some_ext _ (test re_msg_semicolon) errors errors'
             (fun _ => eq_refl) H).
  rewrite (some_ext _ (test re_msg_brace) errors errors'
             (fun _ => eq_refl) H).
  rewrite (some_ext _ (test re_msg_extra) errors errors'
             (fun _ => eq_refl) H).
  reflexivity.
Qed.

Lemma generateFixes_by_messages_witness :
  generateFixes two_open [err_braces; err_extra_semicolon 3] =
  generateFixes two_open
    [err_extra_semicolon 0; err_braces; err_braces].
Proof.
  apply (generateFixes_by_messages two_open).
  intros m. simpl. tauto.
Defined.

(** *** The fixes that can come out *)

Lemma in_generateFixes code errors f :
  In f (generateFixes code errors) ->
  f = fix_stdio \/ f = fix_add_brace (split_lines code) \/
  (exists i l, f = fix_missing_semicolon i l /\
     first_line (test re_printf_open) (split_lines code) 0 = Some (i, l)) \/
  (exists i l, f = fix_remove_brace i l /\
     last_line (test re_close_brace) (split_lines code) 0 = Some (i, l)) \/
  (exists i l, f = fix_extra_semicolon i l /\
     first_line (test re_semi_semi) (split_lines code) 0 = Some (i, l)).
Proof.
  rewrite generateFixes_eq, !in_app_iff.
  unfold stdio_fix, semicolon_fix, brace_fix, extra_fix.
  intros [H | [H | [H | H]]]; revert H.
  - destruct (some _ errors); simpl; [|tauto]. intros [<-|[]]. now left.
  - destruct (some _ errors); simpl; [|tauto].
    destruct (first_line _ _ _) as [[i l]|] eqn:E; simpl; [|tauto].
    intros [<-|[]]. right. right. left. now exists i, l.
  - destruct (some _ errors); simpl; [|tauto].
    destruct (count_close code <? count_open code)%nat; simpl.
    { intros [<-|[]]. right. now left. }
    destruct (count_open code <? count_close code)%nat; simpl; [|tauto].
    destruct (last_line _ _ _) as [[i l]|] eqn:E; simpl; [|tauto].
    intros [<-|[]]. right. right. right. left. now exists i, l.
  - destruct (some _ errors); simpl; [|tauto].
    destruct (first_line _ _ _) as [[i l]|] eqn:E; simpl; [|tauto].
    intros [<-|[]]. right. right. right. right. now exists i, l.
Qed.

Lemma nth_error_line_count code i l :
  nth_error (split_lines code) i = Some l -> (i < line_count code)%nat.
Proof. intros H. apply nth_error_Some. congruence. Qed.

(** X15. Every edit that [generateFixes] proposes names a line of the
    buffer it was given: an insert goes before line 1 or after the last
    line; a replace names a line between 1 and the last, and its original
    text is that line of the buffer. *)
Theorem synthesized_edits_in_range
    (code : jsstring) (errors : list Diagnostic) (f : Fix) :
  In f (generateFixes code errors) ->
  exists n, edit_line (fix_edit f) = Some n /\
    (edit_type (fix_edit f) = str "insert" /\
     (n = 1 \/ n = Z.of_nat (line_count code) + 1)
     \/
     edit_type (fix_edit f) = str "replace" /\
     1 <= n <= Z.of_nat (line_count code) /\
     edit_original (fix_edit f) =
       nth_error (split_lines code) (Z.to_nat (n - 1)))%Z.
Proof.
  intros H. apply in_generateFixes in H.
  destruct H as [-> | [-> | [H | [H | H]]]].
  - exists 1%Z. split; [reflexivity|]. left. split; [reflexivity | now left].
  - exists (Z.of_nat (line_count code) + 1)%Z. split; [reflexivity|].
    left. split; [reflexivity | now right].
  - destruct H as (i & l & -> & H). apply first_line_some in H.
    destruct H as (_ & Hn & _). rewrite Nat.sub_0_r in Hn.
    pose proof (nth_error_line_count code i l Hn).
    exists (Z.of_nat i + 1)%Z. split; [reflexivity|]. right.
    split; [reflexivity|]. split; [lia|]. simpl.
    replace (Z.to_nat (Z.of_nat i + 1 - 1)) with i by lia. now rewrite Hn.
  - destruct H as (i & l & -> & H). apply last_line_some in H.
    destruct H as (_ & Hn & _). rewrite Nat.sub_0_r in Hn.
    pose proof (nth_error_line_count code i l Hn).
    exists (Z.of_nat i + 1)%Z. split; [reflexivity|]. right.
    split; [reflexivity|]. split; [lia|]. simpl.
    replace (Z.to_nat (Z.of_nat i + 1 - 1)) with i by lia. now rewrite Hn.
  - destruct H as (i & l & -> & H). apply first_line_some in H.
    destruct H as (_ & Hn & _). rewrite Nat.sub_0_r in Hn.
    pose proof (nth_error_line_count code i l Hn).
    exists (Z.of_nat i + 1)%Z. split; [reflexivity|]. right.
    split; [reflexivity|]. split; [lia|]. simpl.
    replace (Z.to_nat (Z.of_nat i + 1 - 1)) with i by lia. now rewrite Hn.
Qed.

Lemma synthesized_edits_in_range_witness :
  exists n, edit_line (fix_edit (fix_add_brace (split_lines two_open)))
            = Some n /\
    (edit_type (fix_edit (fix_add_brace (split_lines two_open)))
     = str "insert" /\
     (n = 1 \/ n = Z.of_nat (line_count two_open) + 1)
     \/
     edit_type (fix_edit (fix_add_brace (split_lines two_open)))
     = str "replace" /\
     1 <= n <= Z.of_nat (line_count two_open) /\
     edit_original (fix_edit (fix_add_brace (split_lines two_open))) =
       nth_error (split_lines two_open) (Z.to_nat (n - 1)))%Z.
Proof.
  apply (synthesized_edits_in_range two_open [err_braces]).
  vm_compute. auto.
Defined.

(** X16. The fixes come in the order of the branches, the include, the
    missing semicolon, the braces, the extra semicolon, and at most one of
    each. *)
Theorem fixes_in_branch_order (code : jsstring) (errors : list Diagnostic) :
  exists f1 f2 f3 f4,
    generateFixes code errors = f1 ++ f2 ++ f3 ++ f4 /\
    (List.length f1 <= 1 /\ List.length f2 <= 1 /\
     List.length f3 <= 1 /\ List.length f4 <= 1)%nat /\
    Forall (fix_for MissingInclude code) f1 /\
    Forall (fix_for MissingSemicolon code) f2 /\
    Forall (fix_for UnmatchedBraces code) f3 /\
    Forall (fix_for ExtraSemicolon code) f4.
Proof.
  exists (stdio_fix errors), (semicolon_fix code errors),
    (brace_fix code errors), (extra_fix code errors).
  split; [apply generateFixes_eq|].
  split; [apply branch_at_most_one|].
  unfold stdio_fix, semicolon_fix, brace_fix, extra_fix.
  split; [|split; [|split]]; branches;
    repeat match goal with
    | |- Forall _ [] => constructor
    | |- Forall _ (_ :: _) => constructor
    end; simpl;
    first [ reflexivity | now left | right; eauto | eauto ].
Qed.

(** *** The first match *)

(** [exec] stops at the first start position where the pattern matches:
    it matches at none before. *)
Lemma exec_from_first m b a b0 r :
  exec_from m b a = Some (b0, r) ->
  exists u a0, a = u ++ a0 /\ b0 = List.rev u ++ b /\
    m accept b0 a0 = Some r /\
    forall u1 u2, u = u1 ++ u2 -> u2 <> [] ->
      m accept (List.rev u1 ++ b) (u2 ++ a0) = None.
Proof.
  revert b. induction a as [|c a IH]; intros b H; simpl in H.
  - destruct (m accept b []) as [r'|] eqn:E; [|discriminate].
    injection H as <- <-. exists [], []. repeat split; try assumption.
    intros u1 u2 Hu Hn. symmetry in Hu. apply app_eq_nil in Hu.
    destruct Hu as [_ ->]. contradiction.
  - destruct (m accept b (c :: a)) as [r'|] eqn:E.
    + injection H as <- <-. exists [], (c :: a).
      repeat split; try assumption.
      intros u1 u2 Hu Hn. symmetry in Hu. apply app_eq_nil in Hu.
      destruct Hu as [_ ->]. contradiction.
    + apply IH in H. destruct H as (u & a0 & -> & -> & Hm & Hfirst).
      exists (c :: u), a0. rewrite rev_cons_app.
      repeat split; try assumption.
      intros [|c' u1] u2 Hu Hn.
      * simpl in Hu. subst u2. exact E.
      * injection Hu as <- ->. rewrite rev_cons_app. now apply Hfirst.
Qed.

Lemma app_eq_app_shorter {A} (u a0 u' x : list A) :
  u ++ a0 = u' ++ x -> (List.length u' < List.length u)%nat ->
  exists u2, u2 <> [] /\ u = u' ++ u2 /\ x = u2 ++ a0.
Proof.
  intros H Hlen. apply app_eq_app in H.
  destruct H as (l & [[-> ->] | [-> ->]]).
  - exists l. repeat split. intros ->. rewrite app_nil_r in Hlen. lia.
  - rewrite length_app in Hlen. lia.
Qed.

Lemma replace_first_pair l :
  adjacent_semicolons l ->
  exists u v, l = u ++ str ";;" ++ v /\
    (forall u' v', l = u' ++ str ";;" ++ v' ->
                   (List.length u <= List.length u')%nat) /\
    replace re_semi_semi (str ";") l = u ++ str ";" ++ v.
Proof.
  intros H. apply test_semi_semi_iff in H. unfold test, replace, exec in *.
  destruct (exec_from re_semi_semi [] l) as [[b0 [b1 a1]]|] eqn:E;
    [clear H | discriminate].
  apply exec_from_first in E.
  destruct E as (u & a0 & -> & -> & Hm & Hfirst). rewrite app_nil_r in *.
  apply sound_semi_semi in Hm.
  destruct Hm as (w & a' & -> & -> & Hacc). injection Hacc as <- <-.
  exists u, a'. rewrite rev_involutive. repeat split.
  intros u' v' Hl.
  destruct (Nat.le_gt_cases (List.length u) (List.length u')) as [|Hlt];
    [assumption | exfalso].
  destruct (app_eq_app_shorter _ _ _ _ Hl Hlt) as (u2 & Hn & -> & Hx).
  specialize (Hfirst u' u2 eq_refl Hn). rewrite app_nil_r, <- Hx in Hfirst.
  revert Hfirst. apply complete_semi_semi; [reflexivity | discriminate].
Qed.

Lemma replace_no_pair l :
  ~ adjacent_semicolons l -> replace re_semi_semi (str ";") l = l.
Proof.
  intros H. rewrite <- test_semi_semi_iff in H. unfold test, replace in *.
  destruct (exec re_semi_semi l); [now contradiction H | reflexivity].
Qed.

(** X17. The replacement text of the extra-semicolon fix is the line with
    its first pair of semicolons made one semicolon; later pairs stay. *)
Theorem extra_semicolon_replacement (l : jsstring) :
  adjacent_semicolons l ->
  exists u v, l = u ++ str ";;" ++ v /\
    (forall u' v', l = u' ++ str ";;" ++ v' ->
                   (List.length u <= List.length u')%nat) /\
    replace re_semi_semi (str ";") l = u ++ str ";" ++ v.
Proof. apply replace_first_pair. Qed.

Lemma extra_semicolon_replacement_witness :
  exists u v, str "a;;b;;" = u ++ str ";;" ++ v /\
    (forall u' v', str "a;;b;;" = u' ++ str ";;" ++ v' ->
                   (List.length u <= List.length u')%nat) /\
    replace re_semi_semi (str ";") (str "a;;b;;") = u ++ str ";" ++ v.
Proof.
  apply (extra_semicolon_replacement (str "a;;b;;")).
  now exists (str "a"), (str "b;;").
Defined.

(** *** Which branch a fix comes from *)

Ltac other_fix H :=
  apply (f_equal fix_description) in H; vm_compute in H; discriminate H.

Lemma in_generateFixes_extra code errors i l :
  In (fix_extra_semicolon i l) (generateFixes code errors) ->
  first_line (test re_semi_semi) (split_lines code) 0 = Some (i, l).
Proof.
  intros H. apply in_generateFixes in H.
  destruct H as [H | [H | [H | [H | H]]]]; try other_fix H.
  - destruct H as (i' & l' & H & _). other_fix H.
  - destruct H as (i' & l' & H & _). other_fix H.
  - destruct H as (i' & l' & H & E). rewrite E.
    pose proof (f_equal (fun f => edit_line (fix_edit f)) H) as Hi.
    pose proof (f_equal (fun f => edit_original (fix_edit f)) H) as Ho.
    simpl in Hi, Ho. injection Hi as Hi. injection Ho as <-.
    f_equal. f_equal. lia.
Qed.

Lemma in_generateFixes_missing code errors i l :
  In (fix_missing_semicolon i l) (generateFixes code errors) ->
  first_line (test re_printf_open) (split_lines code) 0 = Some (i, l).
Proof.
  intros H. apply in_generateFixes in H.
  destruct H as [H | [H | [H | [H | H]]]]; try other_fix H.
  - destruct H as (i' & l' & H & E). rewrite E.
    pose proof (f_equal (fun f => edit_line (fix_edit f)) H) as Hi.
    pose proof (f_equal (fun f => edit_original (fix_edit f)) H) as Ho.
    simpl in Hi, Ho. injection Hi as Hi. injection Ho as <-.
    f_equal. f_equal. lia.
  - destruct H as (i' & l' & H & _). other_fix H.
  - destruct H as (i' & l' & H & _). other_fix H.
Qed.

Lemma line_no_LF code i l :
  nth_error (split_lines code) i = Some l -> count_char LF l = 0%nat.
Proof.
  intros H. apply nth_error_In in H.
  pose proof (split_lines_no_LF code) as Hall.
  rewrite Forall_forall in Hall. now apply Hall.
Qed.

Lemma lineIndex_of_nat lines e i :
  edit_line e = Some (Z.of_nat i + 1)%Z -> (i < List.length lines)%nat ->
  lineIndex lines e = i.
Proof.
  intros H Hi. unfold lineIndex, line_or_1. rewrite H.
  destruct (Z.eqb_spec (Z.of_nat i + 1) 0); lia.
Qed.

(** X18. Applying the extra-semicolon fix takes one semicolon out of the
    buffer and no other character, line separators apart, and keeps the
    number of lines. *)
Theorem extra_semicolon_fix_removes_one
    (code : jsstring) (errors : list Diagnostic) (i : nat) (l : jsstring) :
  In (fix_extra_semicolon i l) (generateFixes code errors) ->
  let code' := newCode code (fix_edit (fix_extra_semicolon i l)) in
  S (count_char 59 code') = count_char 59 code /\
  (forall c, c <> 59 -> c <> LF -> c <> CR ->
             count_char c code' = count_char c code) /\
  line_count code' = line_count code.
Proof.
  intros H code'. apply in_generateFixes_extra, first_line_some in H.
  destruct H as (_ & Hn & Ht & _). rewrite Nat.sub_0_r in Hn.
  pose proof (nth_error_line_count code i l Hn) as Hi.
  apply test_semi_semi_iff, replace_first_pair in Ht.
  destruct Ht as (u & v & Hl & _ & Hr).
  set (e := fix_edit (fix_extra_semicolon i l)) in *.
  assert (Hidx : lineIndex (split_lines code) e = i)
    by now apply lineIndex_of_nat.
  assert (Htext : edit_text e = u ++ str ";" ++ v) by exact Hr.
  assert (Hcount : forall c, c <> LF -> c <> CR ->
            (count_char c code' + count_char c (str ";;")
             = count_char c code + count_char c (str ";"))%nat).
  { intros c Hlf Hcr.
    pose proof (count_char_replace code e _ c eq_refl eq_refl Hlf Hcr) as Hc.
    rewrite Hidx, (nth_error_nth _ _ _ Hn), Htext, Hl in Hc.
    rewrite !count_char_app in Hc. fold code' in Hc. lia. }
  split; [|split].
  - specialize (Hcount 59). change (count_char 59 (str ";;")) with 2%nat in *.
    change (count_char 59 (str ";")) with 1%nat in *.
    assert (59 <> LF) by discriminate. assert (59 <> CR) by discriminate.
    lia.
  - intros c Hc Hlf Hcr. specialize (Hcount c Hlf Hcr).
    change (str ";;") with [59; 59] in Hcount.
    change (str ";") with [59] in Hcount.
    rewrite !count_char_cons, !count_char_nil in Hcount.
    replace (char_eqb c 59) with false in Hcount; [simpl in Hcount; lia|].
    symmetry. apply N.eqb_neq. assumption.
  - unfold code'. rewrite (line_count_replace code e _ eq_refl eq_refl)
      by (simpl; lia).
    rewrite Htext. pose proof (line_no_LF code i l Hn) as Hlf.
    rewrite Hl, !count_char_app in Hlf. rewrite !count_char_app.
    change (count_char LF (str ";")) with 0%nat. lia.
Qed.

Lemma extra_semicolon_fix_removes_one_witness :
  let code := str "x;;" in
  let code' := newCode code (fix_edit (fix_extra_semicolon 0 code)) in
  S (count_char 59 code') = count_char 59 code /\
  (forall c, c <> 59 -> c <> LF -> c <> CR ->
             count_char c code' = count_char c code) /\
  line_count code' = line_count code.
Proof.
  intros code.
  apply (extra_semicolon_fix_removes_one code [err_extra_semicolon 0]).
  vm_compute. auto.
Defined.

Lemma extra_replacement_no_LF code i l :
  nth_error (split_lines code) i = Some l ->
  count_char LF (replace re_semi_semi (str ";") l) = 0%nat.
Proof.
  intros Hn. pose proof (line_no_LF code i l Hn) as Hlf.
  destruct (test re_semi_semi l) eqn:E.
  - apply test_semi_semi_iff, replace_first_pair in E.
    destruct E as (u & v & Hl & _ & ->).
    rewrite Hl, !count_char_app in Hlf. rewrite !count_char_app.
    change (count_char LF (str ";")) with 0%nat. lia.
  - rewrite replace_no_pair; [assumption|].
    rewrite <- test_semi_semi_iff. congruence.
Qed.

(** X19. Applying a fix that [generateFixes] proposes for the buffer adds
    two lines when the fix is an insert (the include line or the closing
    brace, each with an empty line) and keeps the number of lines when it
    is a replace. *)
Theorem line_count_after_synthesized_fix
    (code : jsstring) (errors : list Diagnostic) (f : Fix) :
  In f (generateFixes code errors) ->
  line_count (newCode code (fix_edit f)) =
  (line_count code
   + if str_eqb (edit_type (fix_edit f)) (str "insert") then 2 else 0)%nat.
Proof.
  intros H. apply in_generateFixes in H.
  destruct H as [-> | [-> | [H | [H | H]]]].
  - rewrite line_count_insert by reflexivity.
    change (count_char LF (edit_text (fix_edit fix_stdio))) with 1%nat.
    change (str_eqb (edit_type (fix_edit fix_stdio)) (str "insert"))
      with true. cbv iota. lia.
  - rewrite line_count_insert by reflexivity.
    change (count_char LF (edit_text (fix_edit (fix_add_brace
              (split_lines code))))) with 1%nat.
    change (str_eqb (edit_type (fix_edit (fix_add_brace (split_lines code))))
              (str "insert")) with true. cbv iota. lia.
  - destruct H as (i & l & -> & H). apply first_line_some in H.
    destruct H as (_ & Hn & _). rewrite Nat.sub_0_r in Hn.
    pose proof (nth_error_line_count code i l Hn).
    rewrite (line_count_replace code (fix_edit (fix_missing_semicolon i l)) _
               eq_refl eq_refl) by (simpl; lia).
    change (edit_text (fix_edit (fix_missing_semicolon i l)))
      with (l ++ str ";").
    rewrite count_char_app, (line_no_LF code i l Hn). reflexivity.
  - destruct H as (i & l & -> & H). apply last_line_some in H.
    destruct H as (_ & Hn & _). rewrite Nat.sub_0_r in Hn.
    pose proof (nth_error_line_count code i l Hn).
    now rewrite (line_count_replace code (fix_edit (fix_remove_brace i l)) _
                   eq_refl eq_refl)
      by (simpl; lia).
  - destruct H as (i & l & -> & H). apply first_line_some in H.
    destruct H as (_ & Hn & _). rewrite Nat.sub_0_r in Hn.
    pose proof (nth_error_line_count code i l Hn).
    rewrite (line_count_replace code (fix_edit (fix_extra_semicolon i l)) _
               eq_refl eq_refl) by (simpl; lia).
    change (edit_text (fix_edit (fix_extra_semicolon i l)))
      with (replace re_semi_semi (str ";") l).
    rewrite (extra_replacement_no_LF code i l Hn). reflexivity.
Qed.

Lemma line_count_after_synthesized_fix_witness :
  line_count (newCode two_open
                (fix_edit (fix_add_brace (split_lines two_open)))) =
  (line_count two_open + 2)%nat.
Proof.
  apply (line_count_after_synthesized_fix two_open [err_braces]).
  vm_compute. auto.
Defined.

(** *** The missing-semicolon fix *)

#[local] Hint Resolve sound_seq complete_seq sound_star complete_star
  sound_lit complete_lit sound_chr complete_chr sound_eoi complete_eoi
  : regex.

Lemma sound_printf_open : sound re_printf_open D_printf_open.
Proof. unfold re_printf_open, D_printf_open. auto 10 with regex. Qed.

Lemma complete_printf_open : complete re_printf_open D_printf_open.
Proof. unfold re_printf_open, D_printf_open. auto 10 with regex. Qed.

Lemma test_printf_open_iff l :
  test re_printf_open l = true <-> open_printf l.
Proof.
  rewrite (test_iff _ _ l sound_printf_open complete_printf_open).
  unfold found, D_printf_open, open_printf. split.
  - intros (u & w & a & -> & H).
    destruct H as (w1 & r1 & -> & -> & H).
    destruct H as (ws & r2 & -> & Hws & H).
    destruct H as (w3 & r3 & -> & -> & H).
    destruct H as (body & r4 & -> & Hbody & H).
    destruct H as (w5 & r5 & -> & -> & H).
    destruct H as (sp & r6 & -> & Hsp & -> & ->).
    exists u, ws, body, sp. repeat split; try assumption.
    now rewrite <- !app_assoc, !app_nil_r.
  - intros (u & ws & body & sp & -> & Hws & Hbody & Hsp).
    exists u, (str "printf" ++ ws ++ [40] ++ body ++ [41] ++ sp), [].
    split; [now rewrite <- !app_assoc, !app_nil_r|].
    exists (str "printf"), (ws ++ [40] ++ body ++ [41] ++ sp).
    split; [reflexivity|]. split; [reflexivity|].
    exists ws, ([40] ++ body ++ [41] ++ sp).
    split; [reflexivity|]. split; [assumption|].
    exists [40], (body ++ [41] ++ sp).
    split; [reflexivity|]. split; [reflexivity|].
    exists body, ([41] ++ sp).
    split; [reflexivity|]. split; [assumption|].
    exists [41], sp. split; [reflexivity|]. split; [reflexivity|].
    exists sp, []. rewrite app_nil_r. now repeat split.
Qed.

Lemma semicolon_closes_printf l : ~ open_printf (l ++ str ";").
Proof.
  intros (u & ws & body & sp & H & _ & _ & Hsp).
  assert (E : l ++ [59] =
              (u ++ str "printf" ++ ws ++ [40] ++ body) ++ 41 :: sp).
  { change (str ";") with [59] in H. rewrite H. now rewrite <- !app_assoc. }
  clear H. apply app_eq_app in E.
  destruct E as (x & [[_ E] | [_ E]]).
  - destruct x as [|c x]; [discriminate|]. injection E as _ ->.
    rewrite forallb_app in Hsp. apply andb_true_iff in Hsp.
    destruct Hsp as [_ Hsp]. discriminate.
  - destruct x as [|c x]; [discriminate|]. injection E as _ E.
    destruct x; discriminate.
Qed.

(** X20. The missing-semicolon fix names the first line of the buffer that
    ends in a [printf] call without a semicolon; its replacement is that
    line and a semicolon, which is no such line any more. *)
Theorem missing_semicolon_fix_first_line
    (code : jsstring) (errors : list Diagnostic) (i : nat) (l : jsstring) :
  In (fix_missing_semicolon i l) (generateFixes code errors) ->
  nth_error (split_lines code) i = Some l /\ open_printf l /\
  (forall j l', (j < i)%nat -> nth_error (split_lines code) j = Some l' ->
                ~ open_printf l') /\
  edit_replacement (fix_edit (fix_missing_semicolon i l))
    = Some (l ++ str ";") /\
  ~ open_printf (l ++ str ";").
Proof.
  intros H. apply in_generateFixes_missing, first_line_some in H.
  destruct H as (_ & Hn & Ht & Hfirst). rewrite Nat.sub_0_r in *.
  split; [assumption|]. split; [now apply test_printf_open_iff|].
  split; [|split; [reflexivity | apply semicolon_closes_printf]].
  intros j l' Hj Hl' Ho. apply test_printf_open_iff in Ho.
  rewrite (Hfirst j l' Hj Hl') in Ho. discriminate.
Qed.

Lemma missing_semicolon_fix_first_line_witness :
  nth_error (split_lines two_defects) 1 = Some (str "printf(x)") /\
  ~ open_printf (str "printf(x)" ++ str ";").
Proof.
  destruct (missing_semicolon_fix_first_line two_defects
              (analyze two_defects) 1 (str "printf(x)"))
    as (H1 & _ & _ & _ & H2); [vm_compute; auto|].
  now split.
Defined.

(** *** The fix that removes a brace *)

Lemma test_close_brace_iff l : test re_close_brace l = true <-> In 125 l.
Proof.
  unfold re_close_brace.
  rewrite (test_iff _ _ l (sound_chr 125) (complete_chr 125)).
  unfold found, D_lit. split.
  - intros (u & w & a & -> & ->). apply in_elt.
  - intros H. apply in_split in H. destruct H as (u & a & ->).
    now exists u, [125], a.
Qed.

Lemma count_char_pos c l : (0 < count_char c l)%nat -> In c l.
Proof.
  induction l as [|d l IH]; [rewrite count_char_nil; lia|].
  rewrite count_char_cons. destruct (char_eqb c d) eqn:E.
  - intros _. left. symmetry. now apply char_eqb_eq.
  - simpl. intros H. right. now apply IH.
Qed.

Lemma count_in_lines_pos c ls :
  (0 < count_in_lines c ls)%nat -> exists l, In l ls /\ In c l.
Proof.
  unfold count_in_lines. induction ls as [|l ls IH]; simpl; [lia|].
  intros H. destruct (Nat.eq_dec (count_char c l) 0) as [E|E].
  - rewrite E in H. destruct (IH H) as (l' & Hl' & Hc).
    exists l'. split; [now right | assumption].
  - exists l. split; [now left|]. apply count_char_pos. lia.
Qed.

Lemma remove_brace_fix_found code errors :
  In err_braces errors -> (count_open code < count_close code)%nat ->
  exists i l,
    In (fix_remove_brace i l) (generateFixes code errors) /\
    nth_error (split_lines code) i = Some l /\ In 125 l /\
    (forall j l', (i < j)%nat -> nth_error (split_lines code) j = Some l' ->
                  ~ In 125 l') /\
    edit_replacement (fix_edit (fix_remove_brace i l)) = Some [].
Proof.
  intros Hin Hlt.
  destruct (last_line (test re_close_brace) (split_lines code) 0)
    as [[i l]|] eqn:E.
  - exists i, l. pose proof (last_line_some _ _ _ _ _ E) as H.
    destruct H as (_ & Hn & Ht & Hlast). rewrite Nat.sub_0_r in *.
    split; [|split; [assumption|split; [now apply test_close_brace_iff|]]].
    + rewrite generateFixes_eq, !in_app_iff. right. right. left.
      unfold brace_fix.
      assert (Hs : some (fun e => test re_msg_brace (err_message e)) errors
                   = true).
      { apply existsb_exists. exists err_braces. now split. }
      rewrite Hs, E.
      replace (count_close code <? count_open code)%nat with false
        by (symmetry; apply Nat.ltb_ge; lia).
      replace (count_open code <? count_close code)%nat with true
        by (symmetry; now apply Nat.ltb_lt).
      now left.
    + split; [|reflexivity]. intros j l' Hj Hl' Hc.
      apply test_close_brace_iff in Hc.
      rewrite (Hlast j l' Hj Hl') in Hc. discriminate.
  - exfalso. rewrite last_line_none in E.
    destruct (count_in_lines_pos 125 (split_lines code)) as (l & Hl & Hc).
    + rewrite count_in_split_lines by discriminate.
      unfold count_close in Hlt. lia.
    + apply test_close_brace_iff in Hc. rewrite (E l Hl) in Hc.
      discriminate.
Qed.

(** X21. With a brace diagnostic and more closing than opening braces,
    [generateFixes] always proposes to empty a line: the last line of the
    buffer that has a closing brace. *)
Theorem remove_brace_fix_last_line
    (code : jsstring) (errors : list Diagnostic) :
  In err_braces errors -> (count_open code < count_close code)%nat ->
  exists i l,
    In (fix_remove_brace i l) (generateFixes code errors) /\
    nth_error (split_lines code) i = Some l /\ In 125 l /\
    (forall j l', (i < j)%nat -> nth_error (split_lines code) j = Some l' ->
                  ~ In 125 l') /\
    edit_replacement (fix_edit (fix_remove_brace i l)) = Some [].
Proof. apply remove_brace_fix_found. Qed.

Lemma remove_brace_fix_last_line_witness :
  exists i l,
    In (fix_remove_brace i l) (generateFixes (str "}") [err_braces]) /\
    nth_error (split_lines (str "}")) i = Some l /\ In 125 l /\
    (forall j l', (i < j)%nat ->
                  nth_error (split_lines (str "}")) j = Some l' ->
                  ~ In 125 l') /\
    edit_replacement (fix_edit (fix_remove_brace i l)) = Some [].
Proof.
  apply (remove_brace_fix_last_line (str "}") [err_braces]).
  - now left.
  - vm_compute. lia.
Defined.

(** *** The include fix *)

(** X22. Once the include fix is applied, the buffer has the include: on
    the new buffer [analyze] emits no missing-include diagnostic, whatever
    the buffer was. *)
Theorem include_fix_settles_missing_include
    (code : jsstring) (result : option CompileResponse)
    (fixes : option (list Fix)) :
  filter (has_kind MissingInclude)
    (analyze (st_code (applyFix (mkAppState code result fixes) fix_stdio)))
  = [].
Proof.
  rewrite includes_of_analyze. simpl st_code.
  rewrite newCode_insert_front;
    [|reflexivity | intros n H; injection H as <-; lia].
  unfold stdio_errors.
  replace (test re_stdio_include _) with true;
    [now rewrite andb_false_r|].
  symmetry. apply test_stdio_include_iff.
  exists [], [], [32], 46, (LF :: LF :: normalize_newlines code).
  now repeat split.
Qed.

End Fixes.

(** ** The repair loop *)

Module RepairLoop.
Import JS Regex Mock App Words Spec Loop JSFacts LinesFacts RegexFacts.
Import Detector.
Import Applier Synthesizer Checks Edits Fixes.

(** *** Closing the braces *)

Lemma add_brace_step_counts code :
  count_open (add_brace_step code) = count_open code /\
  count_close (add_brace_step code) = S (count_close code).
Proof.
  unfold add_brace_step, count_open, count_close.
  rewrite !count_char_insert by (reflexivity || discriminate).
  simpl content_or_empty.
  change (count_char 123 (LF :: str "}")) with 0%nat.
  change (count_char 125 (LF :: str "}")) with 1%nat. lia.
Qed.

Lemma iter_add_brace_counts n code :
  count_open (Nat.iter n add_brace_step code) = count_open code /\
  count_close (Nat.iter n add_brace_step code) = (n + count_close code)%nat.
Proof.
  induction n as [|n [IHo IHc]]; [now split|]. simpl Nat.iter.
  destruct (add_brace_step_counts (Nat.iter n add_brace_step code))
    as [Ho Hc].
  rewrite Ho, Hc, IHo, IHc. split; lia.
Qed.

(** X23. Driving the loop on a buffer with closing braces missing: as long
    as some are, [suggest_fixes] proposes the closing brace, and after as
    many turns as braces were missing [analyze] emits no unmatched-braces
    diagnostic. *)
Theorem brace_loop_converges (code : jsstring) :
  (count_close code <= count_open code)%nat ->
  (forall k, (k < count_open code - count_close code)%nat ->
     let code_k := Nat.iter k add_brace_step code in
     In (fix_add_brace (split_lines code_k))
        (suggest_fixes code_k (analyze code_k))) /\
  filter (has_kind UnmatchedBraces)
    (analyze (Nat.iter (count_open code - count_close code)
                add_brace_step code)) = [].
Proof.
  intros Hle. split.
  - intros k Hk code_k.
    destruct (iter_add_brace_counts k code) as [Ho Hc]. fold code_k in Ho, Hc.
    apply generateFixes_add_brace; [apply brace_errors_in|]; lia.
  - rewrite braces_of_analyze. unfold brace_errors.
    destruct (iter_add_brace_counts (count_open code - count_close code) code)
      as [-> ->].
    replace (Nat.eqb _ _) with true; [reflexivity|].
    symmetry. apply Nat.eqb_eq. lia.
Qed.

Lemma brace_loop_converges_witness :
  filter (has_kind UnmatchedBraces)
    (analyze (Nat.iter (count_open two_open - count_close two_open)
                add_brace_step two_open)) = [].
Proof.
  apply (brace_loop_converges two_open). vm_compute. lia.
Defined.

(** *** A fix for every diagnostic *)

Lemma extra_errors_first lines k :
  extra_errors lines k <> [] ->
  exists i l, first_line (test re_semi_semi) lines k = Some (i, l) /\
    hd_error (extra_errors lines k) = Some (err_extra_semicolon i).
Proof.
  revert k. induction lines as [|x ls IH]; intros k H; simpl in *;
    [contradiction|].
  destruct (test re_semi_semi x).
  - now exists k, x.
  - now apply IH.
Qed.

Lemma some_in (p : Diagnostic -> bool) errors d :
  In d errors -> p d = true -> some p errors = true.
Proof. intros Hin Hp. apply existsb_exists. now exists d. Qed.

Lemma in_filter_nonempty {A} (p : A -> bool) l :
  filter p l <> [] -> exists x, In x l /\ p x = true.
Proof.
  destruct (filter p l) as [|x xs] eqn:E; [contradiction|]. intros _.
  exists x. apply filter_In. rewrite E. now left.
Qed.

(** X24. For every diagnostic of [analyze] but the missing semicolon,
    [suggest_fixes] has the fix of its kind: the include for a missing
    include, the first offending line made good for an extra semicolon, a
    brace more or a line less for unmatched braces. *)
Theorem every_other_kind_has_its_fix (code : jsstring) (k : Kind) :
  k <> MissingSemicolon ->
  filter (has_kind k) (analyze code) <> [] ->
  exists f, In f (suggest_fixes code (analyze code)) /\ fix_for k code f.
Proof.
  intros Hk Hne. unfold suggest_fixes.
  destruct (in_filter_nonempty _ _ Hne) as (d & Hd & Hkd).
  apply str_eqb_eq in Hkd.
  destruct k; [| contradiction | |].
  - exists fix_stdio. split; [|reflexivity].
    rewrite generateFixes_eq, in_app_iff. left. unfold stdio_fix.
    rewrite (some_in _ _ d Hd); [now left|]. now rewrite Hkd.
  - rewrite extras_of_analyze in Hne.
    destruct (extra_errors_first _ _ Hne) as (i & l & E & _).
    exists (fix_extra_semicolon i l). split; [|now exists i, l].
    rewrite generateFixes_eq, !in_app_iff. right. right. right.
    unfold extra_fix. rewrite (some_in _ _ d Hd), E; [now left|].
    now rewrite Hkd.
  - rewrite braces_of_analyze in Hne. unfold brace_errors in Hne.
    destruct (Nat.eqb (count_open code) (count_close code)) eqn:E;
      [contradiction|]. apply Nat.eqb_neq in E.
    assert (Hb : In err_braces (analyze code)) by now apply brace_errors_in.
    destruct (Nat.lt_ge_cases (count_close code) (count_open code))
      as [Hlt|Hge].
    + exists (fix_add_brace (split_lines code)). split; [|now left].
      now apply generateFixes_add_brace.
    + destruct (remove_brace_fix_found code (analyze code) Hb)
        as (i & l & Hf & _); [lia|].
      exists (fix_remove_brace i l). split; [assumption|].
      right. now exists i, l.
Qed.

Lemma every_other_kind_has_its_fix_witness :
  exists f, In f (suggest_fixes two_open (analyze two_open)) /\
            fix_for UnmatchedBraces two_open f.
Proof.
  apply (every_other_kind_has_its_fix two_open UnmatchedBraces);
    [discriminate | vm_compute; discriminate].
Defined.

(** *** A line that ends in an open [printf] *)

(** A line of the buffer lies in it between the start of a line and the
    end of one. *)
Lemma line_in_buffer code i l :
  nth_error (split_lines code) i = Some l ->
  exists pre post, code = pre ++ l ++ post /\ at_eol post /\
    match i with
    | O => pre = []
    | S _ => exists pre', pre = pre' ++ [LF]
    end.
Proof.
  revert i l. induction code as [|c s IH]; intros i l H.
  - destruct i as [|[|i]]; simpl in H; try discriminate.
    injection H as <-. now exists [], [].
  - cbn [split_lines] in H. destruct (c =? LF) eqn:Elf.
    + apply N.eqb_eq in Elf. subst c. destruct i as [|i]; simpl in H.
      * injection H as <-. exists [], (LF :: s). now repeat split.
      * destruct (IH i l H) as (pre & post & -> & Heol & Hpre).
        exists (LF :: pre), post. repeat split; try assumption.
        destruct i as [|i].
        -- subst pre. now exists [].
        -- destruct Hpre as (pre' & ->). now exists (LF :: pre').
    + destruct ((c =? CR) && _) eqn:Ecr.
      * apply andb_true_iff in Ecr. destruct Ecr as [Ec Ed].
        apply N.eqb_eq in Ec. subst c.
        destruct s as [|d s]; [discriminate|].
        apply N.eqb_eq in Ed. subst d.
        destruct i as [|i].
        -- simpl in H. injection H as <-. exists [], (CR :: LF :: s).
           now repeat split.
        -- destruct (IH (S i) l H) as (pre & post & -> & Heol & pre' & ->).
           exists (CR :: pre' ++ [LF]), post. repeat split; try assumption.
           now exists (CR :: pre').
      * pose proof (split_lines_not_nil s) as Hnn.
        destruct (split_lines s) as [|l0 ls] eqn:Es; [contradiction|].
        destruct i as [|i]; simpl in H.
        -- injection H as <-.
           destruct (IH 0%nat l0 eq_refl) as (pre & post & -> & Heol & ->).
           exists [], post. now repeat split.
        -- destruct (IH (S i) l H) as (pre & post & -> & Heol & pre' & ->).
           exists (c :: pre' ++ [LF]), post. repeat split; try assumption.
           now exists (c :: pre').
Qed.

Lemma at_bol_snoc_LF pre : at_bol (List.rev (pre ++ [LF])).
Proof. rewrite rev_app_distr. reflexivity. Qed.

Lemma line_starts_at_bol code i l :
  nth_error (split_lines code) i = Some l ->
  exists pre post, code = pre ++ l ++ post /\ at_bol (List.rev pre) /\
                   at_eol post.
Proof.
  intros H. destruct (line_in_buffer code i l H) as (pre & post & E & He & Hp).
  exists pre, post. repeat split; try assumption.
  destruct i; [now subst pre|]. destruct Hp as (pre' & ->).
  apply at_bol_snoc_LF.
Qed.

(** The text after the last line terminator of a text. *)
Lemma after_last_terminator (u : jsstring) :
  exists u1 u2, u = u1 ++ u2 /\ forallb is_dot u2 = true /\
    (u1 = [] \/ exists u1' c, u1 = u1' ++ [c] /\
                               is_line_terminator c = true).
Proof.
  induction u as [|c u IH] using rev_ind.
  - exists [], []. repeat split. now left.
  - destruct (is_line_terminator c) eqn:E.
    + exists (u ++ [c]), []. rewrite app_nil_r. repeat split.
      right. now exists u, c.
    + destruct IH as (u1 & u2 & -> & Hd & Hu1).
      exists u1, (u2 ++ [c]). rewrite app_assoc. repeat split;
        [|assumption].
      rewrite forallb_app, Hd. simpl. unfold is_dot. now rewrite E.
Qed.

Lemma blank_is_space c : is_blank c = true -> is_space c = true.
Proof.
  unfold is_blank, is_space. intros H. apply orb_true_iff in H.
  destruct H as [H|H]; apply N.eqb_eq in H; subst c; reflexivity.
Qed.

Lemma forallb_blank_space s :
  forallb is_blank s = true -> forallb is_space s = true.
Proof.
  induction s as [|c s IH]; simpl; [reflexivity|]. intros H.
  apply andb_true_iff in H. destruct H as [Hc Hs].
  now rewrite (blank_is_space c Hc), IH.
Qed.

Lemma first_line_before p lines i l :
  nth_error lines i = Some l -> p l = true ->
  exists j l', first_line p lines 0 = Some (j, l') /\ (j <= i)%nat.
Proof.
  intros Hn Hp. destruct (first_line p lines 0) as [[j l']|] eqn:E.
  - exists j, l'. split; [reflexivity|].
    apply first_line_some in E. destruct E as (_ & _ & _ & Hfirst).
    rewrite Nat.sub_0_r in Hfirst.
    destruct (Nat.le_gt_cases j i) as [|Hlt]; [assumption|].
    rewrite (Hfirst i l Hlt Hn) in Hp. discriminate.
  - rewrite first_line_none in E. apply nth_error_In in Hn.
    rewrite (E l Hn) in Hp. discriminate.
Qed.

(** X25. When a line of the buffer ends in a [printf] call with no
    semicolon in its parentheses and only blanks after them, [analyze]
    reports the missing semicolon and [suggest_fixes] proposes to add one,
    on that line or on an earlier one that ends so. *)
Theorem open_printf_line_reported_and_fixed
    (code : jsstring) (i : nat) (u ws body blanks : jsstring) :
  nth_error (split_lines code) i
    = Some (u ++ str "printf" ++ ws ++ [40] ++ body ++ [41] ++ blanks) ->
  forallb is_space ws = true -> forallb not_semi body = true ->
  forallb is_blank blanks = true ->
  In err_missing_semicolon (analyze code) /\
  exists j l, (j <= i)%nat /\
    In (fix_missing_semicolon j l) (suggest_fixes code (analyze code)).
Proof.
  intros Hn Hws Hbody Hblanks.
  assert (Hin : In err_missing_semicolon (analyze code)).
  { rewrite analyze_eq. unfold detected, semicolon_errors.
    replace (test re_printf_line code) with true;
      [rewrite !in_app_iff; right; left; now left|].
    symmetry. apply test_printf_line_iff.
    destruct (line_starts_at_bol code i _ Hn)
      as (pre & post & -> & Hbol & Heol).
    destruct (after_last_terminator u) as (u1 & u2 & -> & Hdot & Hu1).
    exists (pre ++ u1), u2, ws, body, blanks, post.
    repeat split; try assumption.
    - now rewrite <- !app_assoc.
    - destruct Hu1 as [-> | (u1' & c & -> & Hc)].
      + now rewrite app_nil_r.
      + rewrite !rev_app_distr. exact Hc. }
  split; [assumption|].
  destruct (first_line_before (test re_printf_open) (split_lines code) i _ Hn)
    as (j & l & E & Hj).
  { apply test_printf_open_iff. exists u, ws, body, blanks.
    repeat split; try assumption. now apply forallb_blank_space. }
  exists j, l. split; [assumption|]. unfold suggest_fixes.
  rewrite generateFixes_eq, !in_app_iff. right. left.
  unfold semicolon_fix.
  rewrite (some_in _ _ err_missing_semicolon Hin eq_refl), E. now left.
Qed.

Lemma open_printf_line_reported_and_fixed_witness :
  In err_missing_semicolon (analyze two_defects) /\
  exists j l, (j <= 1)%nat /\
    In (fix_missing_semicolon j l)
       (suggest_fixes two_defects (analyze two_defects)).
Proof.
  apply (open_printf_line_reported_and_fixed two_defects 1
           [] [] (str "x") []); reflexivity.
Defined.

End RepairLoop.
